(** * String analyser API: analysis, store and query layer

    A shallow embedding of the JavaScript sources

      - [utils/string_analyser.js]  ([isPalindrome], [countCharacterFrequency],
        [analyseString]),
      - [data/store.js]             ([addString], [getStringByValue],
        [deleteStringByValue], ...),
      - [routes/strings.js]         ([parseNaturalLanguageQuery] and the
        route handlers),

    together with the properties the specification states about them.

    JavaScript strings are sequences of UTF-16 code units; they are modelled
    as lists of code units.  A JavaScript [Map] keeps its entries in
    insertion order and is modelled as an association list; the plain object
    used as a tally is a [gmap]; a [Set] is a [gset]. *)

From Stdlib Require Import ZArith NArith Ascii String.
From stdpp Require Import gmap list fin_maps.

Local Open Scope N_scope.

(** ** JavaScript strings *)

Module JsString.

Definition codeunit := N.
Definition jsstring := list codeunit.

(** A literal of the source, as a list of code units. *)
Definition lit (s : string) : jsstring :=
  map N_of_ascii (list_ascii_of_string s).

(** [a === b] on strings. *)
Fixpoint eqb (a b : jsstring) : bool :=
  match a, b with
  | [], [] => true
  | x :: a', y :: b' => (x =? y) && eqb a' b'
  | _, _ => false
  end.

(** The class [\s] of regular expressions, which is also what
    [String.prototype.trim] strips: WhiteSpace and LineTerminator. *)
Definition isWhiteSpace (c : codeunit) : bool :=
  ((9 <=? c) && (c <=? 13))            (* TAB LF VT FF CR *)
  || (c =? 32) || (c =? 160)           (* SP NBSP *)
  || (c =? 0x1680)
  || ((0x2000 <=? c) && (c <=? 0x200A))
  || (c =? 0x2028) || (c =? 0x2029)
  || (c =? 0x202F) || (c =? 0x205F)
  || (c =? 0x3000) || (c =? 0xFEFF).

(** The class [\d] (no unicode flag): the ten ASCII digits. *)
Definition isDigit (c : codeunit) : bool := (48 <=? c) && (c <=? 57).

(** The class [[a-z]]. *)
Definition isLowerLetter (c : codeunit) : bool := (97 <=? c) && (c <=? 122).

(** [s.replace(/\s/g, '')]. *)
Definition removeWhiteSpace (s : jsstring) : jsstring :=
  List.filter (fun c => negb (isWhiteSpace c)) s.

(** [s.split('')]: one string per code unit. *)
Definition splitUnits (s : jsstring) : list jsstring :=
  map (fun c => [c]) s.

(** [parts.join('')]. *)
Definition joinEmpty (parts : list jsstring) : jsstring := concat parts.

Fixpoint trimStart (s : jsstring) : jsstring :=
  match s with
  | c :: s' => if isWhiteSpace c then trimStart s' else s
  | [] => []
  end.

Definition trimEnd (s : jsstring) : jsstring := rev (trimStart (rev s)).

(** [s.trim()]. *)
Definition trim (s : jsstring) : jsstring := trimEnd (trimStart s).

(** [s.split(/\s+/)].  The algorithm of [RegExp.prototype[Symbol.split]]
    specialised to the separator [\s+]: [cur] is the piece collected since
    the end of the last separator, [inSep] says that the code units just
    read belong to a separator already matched (the greedy [\s+] takes the
    whole run).  The piece after the last separator is always emitted, so
    the empty string gives one empty piece. *)
Fixpoint splitWsFrom (inSep : bool) (cur : jsstring) (s : jsstring)
  : list jsstring :=
  match s with
  | [] => [cur]
  | c :: s' =>
      if isWhiteSpace c then
        if inSep then splitWsFrom true cur s'
        else cur :: splitWsFrom true [] s'
      else splitWsFrom false (cur ++ [c]) s'
  end.

Definition splitWs (s : jsstring) : list jsstring := splitWsFrom false [] s.

(** Surrogates, for iteration by code point. *)
Definition isLeadSurrogate (c : codeunit) : bool :=
  (0xD800 <=? c) && (c <=? 0xDBFF).
Definition isTrailSurrogate (c : codeunit) : bool :=
  (0xDC00 <=? c) && (c <=? 0xDFFF).

(** The string iterator ([for (const ch of s)], [new Set(s)]): one string
    per code point, a surrogate pair giving a string of two code units and
    a lone surrogate a string of one. *)
Fixpoint codePoints (s : jsstring) : list jsstring :=
  match s with
  | [] => []
  | c :: rest =>
      match rest with
      | d :: rest' =>
          if isLeadSurrogate c && isTrailSurrogate d
          then [c; d] :: codePoints rest'
          else [c] :: codePoints rest
      | [] => [[c]]
      end
  end.

(** [s.startsWith(p)], with the rest of [s] after [p]. *)
Fixpoint stripPrefix (p s : jsstring) : option jsstring :=
  match p, s with
  | [], _ => Some s
  | x :: p', y :: s' => if x =? y then stripPrefix p' s' else None
  | _ :: _, [] => None
  end.

(** [s.includes(sub)]: [sub] occurs in [s] at some position. *)
Fixpoint includes (s sub : jsstring) : bool :=
  match stripPrefix sub s with
  | Some _ => true
  | None => match s with
            | [] => false
            | _ :: s' => includes s' sub
            end
  end.

(** Lower-casing of the Basic Latin block; what [toLowerCase] does to a
    code unit below 128 and to a white-space code unit. *)
Definition lowerBasicLatin (c : codeunit) : codeunit :=
  if (65 <=? c) && (c <=? 90) then c + 32 else c.

(** The strings on which [toLowerCase] is fixed by that: every code unit
    is in the Basic Latin block or is white space. *)
Definition isBasic (c : codeunit) : bool := (c <? 128) || isWhiteSpace c.

(** [toLowerCase] on such strings; it is used to run the program on
    ASCII text. *)
Definition toLowerCaseBasic (s : jsstring) : jsstring :=
  map lowerBasicLatin s.

(** A stand-in for the digest when the program is run on an example: like
    the digest, a function of the string alone. *)
Definition sampleDigest (s : jsstring) : jsstring := s.

End JsString.

Import JsString.

(** ** JavaScript numbers

    The numbers of this program are lengths, counts and the results of
    [parseInt]: integers, infinities and NaN.  A finite number is modelled by
    its mathematical value; [ofInteger] rounds an integer to the nearest
    double (ties to even), so arithmetic is exact up to [2^53] and rounds
    beyond it, as in the source language.  (The sign of zero is not
    modelled: no comparison of the program tells [-0] from [0].) *)

Module JsNumber.

Local Open Scope Z_scope.

Inductive number :=
| NaN
| PosInf
| NegInf
| Fin (z : Z).

(** The nearest double to a non-negative integer, as an integer, or
    [None] when it overflows to Infinity. *)
Definition roundNat (a : Z) : option Z :=
  if a <? 2 ^ 53 then Some a
  else
    let e := Z.log2 a - 52 in
    let q := a / 2 ^ e in
    let r := a mod 2 ^ e in
    let half := 2 ^ (e - 1) in
    let q' := if r <? half then q
              else if half <? r then q + 1
              else if Z.even q then q else q + 1 in
    let v := q' * 2 ^ e in
    if v <? 2 ^ 1024 then Some v else None.

Definition ofInteger (z : Z) : number :=
  match roundNat (Z.abs z) with
  | Some v => Fin (Z.sgn z * v)
  | None => if z <? 0 then NegInf else PosInf
  end.

(** [a + b]. *)
Definition add (a b : number) : number :=
  match a, b with
  | NaN, _ | _, NaN => NaN
  | PosInf, NegInf | NegInf, PosInf => NaN
  | PosInf, _ | _, PosInf => PosInf
  | NegInf, _ | _, NegInf => NegInf
  | Fin x, Fin y => ofInteger (x + y)
  end.

(** [a - b]. *)
Definition sub (a b : number) : number :=
  match a, b with
  | NaN, _ | _, NaN => NaN
  | PosInf, PosInf | NegInf, NegInf => NaN
  | PosInf, _ | _, NegInf => PosInf
  | NegInf, _ | _, PosInf => NegInf
  | Fin x, Fin y => ofInteger (x - y)
  end.

(** [a <= b]; false as soon as one side is NaN. *)
Definition leb (a b : number) : bool :=
  match a, b with
  | NaN, _ | _, NaN => false
  | NegInf, _ | _, PosInf => true
  | PosInf, _ | _, NegInf => false
  | Fin x, Fin y => x <=? y
  end.

(** [a >= b]. *)
Definition geb (a b : number) : bool := leb b a.

(** [a === b] on numbers. *)
Definition strictEq (a b : number) : bool :=
  match a, b with
  | PosInf, PosInf | NegInf, NegInf => true
  | Fin x, Fin y => x =? y
  | _, _ => false
  end.

Definition isNaN (a : number) : bool :=
  match a with NaN => true | _ => false end.

(** The value of a digit of radix 10 or 16, when [c] is one. *)
Definition digitValue (radix : Z) (c : codeunit) : option Z :=
  let c := Z.of_N c in
  if (48 <=? c) && (c <=? 57) then Some (c - 48)
  else if radix =? 16 then
    if (97 <=? c) && (c <=? 102) then Some (c - 87)
    else if (65 <=? c) && (c <=? 70) then Some (c - 55)
    else None
  else None.

(** Reads the longest prefix of digits: the value read so far is [acc],
    [seen] says that at least one digit was read. *)
Fixpoint readDigits (radix : Z) (acc : Z) (seen : bool) (s : jsstring)
  : option Z :=
  match s with
  | c :: s' =>
      match digitValue radix c with
      | Some d => readDigits radix (acc * radix + d) true s'
      | None => if seen then Some acc else None
      end
  | [] => if seen then Some acc else None
  end.

(** [parseInt(s)] with no radix argument: leading white space is skipped,
    a sign is read, a [0x] or [0X] prefix selects radix 16, and the longest
    run of digits is the value; no digit at all gives NaN.  (Beyond twenty
    significant digits the language lets an implementation approximate the
    value before rounding; the model rounds the exact value.) *)
Definition parseInt (s : jsstring) : number :=
  let s := trimStart s in
  let '(neg, s) :=
    match s with
    | c :: s' =>
        if (c =? 45)%N then (true, s')             (* - *)
        else if (c =? 43)%N then (false, s')       (* + *)
        else (false, s)
    | [] => (false, s)
    end in
  let '(radix, s) :=
    match s with
    | c :: x :: s' =>
        if (c =? 48)%N && ((x =? 120)%N || (x =? 88)%N)   (* 0x, 0X *)
        then (16, s') else (10, s)
    | _ => (10, s)
    end in
  match readDigits radix 0 false s with
  | Some v => ofInteger (if neg then - v else v)
  | None => NaN
  end.

(** [parseInt(x)] where [x] may be [undefined]: the argument is first
    converted to the string ["undefined"], which has no digit. *)
Definition parseIntOpt (x : option jsstring) : number :=
  match x with
  | Some s => parseInt s
  | None => NaN
  end.

End JsNumber.

Import JsNumber.

(** ** Regular expressions

    The constructs the patterns of [parseNaturalLanguageQuery] use, with the
    backtracking semantics of the language: alternatives are tried left to
    right, [?] and [+] are greedy and give back what they took when the rest
    of the pattern fails.  The matcher is written in continuation-passing
    style: [k] is the rest of the pattern. *)

Module Regex.

Inductive regex :=
| Lit (s : jsstring)                   (* literal text *)
| Cls (p : codeunit -> bool)           (* one code unit of a class *)
| Plus (p : codeunit -> bool)          (* class+ *)
| Seq (r1 r2 : regex)                  (* r1 r2 *)
| Alt (r1 r2 : regex)                  (* r1 | r2 *)
| Opt (r : regex)                      (* (?: r )? *)
| Group (i : nat) (r : regex)          (* ( r ), the i-th group *)
| Eos.                                 (* $ *)

(** The groups of a match, [undefined] being [None]; index 0 is group 1. *)
Definition captures := list (option jsstring).

Definition setCapture (i : nat) (v : jsstring) (cs : captures) : captures :=
  <[i := Some v]> cs.

Definition group (cs : captures) (i : nat) : option jsstring :=
  match cs !! i with
  | Some v => v
  | None => None
  end.

(** After one code unit of the class was read: read as many more as
    possible, and give them back one by one while the rest fails. *)
Fixpoint plusFrom {A} (p : codeunit -> bool) (s : jsstring)
    (k : jsstring -> option A) : option A :=
  match s with
  | c :: s' =>
      if p c then
        match plusFrom p s' k with
        | Some r => Some r
        | None => k s
        end
      else k s
  | [] => k []
  end.

Fixpoint run (r : regex) (s : jsstring) (cs : captures)
    (k : jsstring -> captures -> option captures) : option captures :=
  match r with
  | Lit l =>
      match stripPrefix l s with
      | Some s' => k s' cs
      | None => None
      end
  | Cls p =>
      match s with
      | c :: s' => if p c then k s' cs else None
      | [] => None
      end
  | Plus p =>
      match s with
      | c :: s' => if p c then plusFrom p s' (fun s'' => k s'' cs) else None
      | [] => None
      end
  | Seq r1 r2 => run r1 s cs (fun s' cs' => run r2 s' cs' k)
  | Alt r1 r2 =>
      match run r1 s cs k with
      | Some m => Some m
      | None => run r2 s cs k
      end
  | Opt r1 =>
      match run r1 s cs k with
      | Some m => Some m
      | None => k s cs
      end
  | Group i r1 =>
      run r1 s cs
        (fun s' cs' =>
           k s' (setCapture i (take (length s - length s') s) cs'))
  | Eos =>
      match s with
      | [] => k [] cs
      | _ :: _ => None
      end
  end.

(** What a successful run has read: [Matches r s cs s' cs'] says that [r]
    matches the part of [s] before its suffix [s'], turning the groups
    [cs] into [cs']. *)
Inductive Matches : regex -> jsstring -> captures -> jsstring -> captures
                    -> Prop :=
| MLit l s cs : Matches (Lit l) (l ++ s) cs s cs
| MCls (p : codeunit -> bool) c s cs :
    p c = true -> Matches (Cls p) (c :: s) cs s cs
| MPlus (p : codeunit -> bool) c w s cs :
    p c = true -> Forall (fun x => p x = true) w ->
    Matches (Plus p) (c :: w ++ s) cs s cs
| MSeq r1 r2 s cs s1 cs1 s2 cs2 :
    Matches r1 s cs s1 cs1 -> Matches r2 s1 cs1 s2 cs2 ->
    Matches (Seq r1 r2) s cs s2 cs2
| MAltL r1 r2 s cs s' cs' :
    Matches r1 s cs s' cs' -> Matches (Alt r1 r2) s cs s' cs'
| MAltR r1 r2 s cs s' cs' :
    Matches r2 s cs s' cs' -> Matches (Alt r1 r2) s cs s' cs'
| MOptSome r s cs s' cs' :
    Matches r s cs s' cs' -> Matches (Opt r) s cs s' cs'
| MOptNone r s cs : Matches (Opt r) s cs s cs
| MGroup i r s cs s' cs' :
    Matches r s cs s' cs' ->
    Matches (Group i r) s cs s'
            (setCapture i (take (length s - length s') s) cs')
| MEos cs : Matches Eos [] cs [] cs.

(** A match starting exactly at the head of [s] ([n] groups). *)
Definition matchAt (n : nat) (r : regex) (s : jsstring) : option captures :=
  run r s (replicate n None) (fun _ cs => Some cs).

(** [str.match(r)] for a pattern without the [g] flag: the match at the
    leftmost start position that has one, or [null]. *)
Fixpoint search (n : nat) (r : regex) (s : jsstring) : option captures :=
  match matchAt n r s with
  | Some cs => Some cs
  | None =>
      match s with
      | [] => None
      | _ :: s' => search n r s'
      end
  end.

(** [a || b] on two groups: [a] unless it is [undefined] or empty. *)
Definition orElse (a b : option jsstring) : option jsstring :=
  match a with
  | Some (_ :: _) => a
  | _ => b
  end.

Definition ws : regex := Plus isWhiteSpace.
Definition digits : regex := Plus isDigit.
Definition letter : regex := Cls isLowerLetter.

(** A sequence of several pieces. *)
Fixpoint cat (rs : list regex) : regex :=
  match rs with
  | [] => Lit []
  | [r] => r
  | r :: rs' => Seq r (cat rs')
  end.

End Regex.

Import Regex.

(** ** The [Map] of the store

    Entries in insertion order, keys compared as strings.  [set] on a key
    already present replaces the value where it stands. *)

Module JsMap.

Section Ops.
Context {V : Type}.

Definition t := list (jsstring * V).

Fixpoint get (k : jsstring) (m : t) : option V :=
  match m with
  | [] => None
  | (k', v) :: m' => if JsString.eqb k' k then Some v else get k m'
  end.

Definition has (k : jsstring) (m : t) : bool :=
  match get k m with
  | Some _ => true
  | None => false
  end.

Fixpoint set (k : jsstring) (v : V) (m : t) : t :=
  match m with
  | [] => [(k, v)]
  | (k', v') :: m' =>
      if JsString.eqb k' k then (k', v) :: m' else (k', v') :: set k v m'
  end.

Fixpoint remove (k : jsstring) (m : t) : t :=
  match m with
  | [] => []
  | (k', v') :: m' =>
      if JsString.eqb k' k then m' else (k', v') :: remove k m'
  end.

(** [m.delete(k)]: whether the key was there, and the map without it. *)
Definition delete (k : jsstring) (m : t) : bool * t :=
  (has k m, remove k m).

Definition entries (m : t) : list (jsstring * V) := m.
Definition keys (m : t) : list jsstring := fst <$> m.
Definition values (m : t) : list V := snd <$> m.
Definition size (m : t) : Z := Z.of_nat (length m).
End Ops.

Arguments t : clear implicits.

End JsMap.

(** ** Data model *)

(** The result of [analyseString]. *)
Module Properties.
Record t := {
  length : Z;
  is_palindrome : bool;
  unique_characters : Z;
  word_count : Z;
  sha256_hash : jsstring;
  character_frequency : gmap jsstring Z
}.
End Properties.

(** A stored string. *)
Module StringData.
Record t := {
  id : jsstring;
  value : jsstring;
  properties : Properties.t;
  created_at : jsstring
}.
End StringData.

(** A filter object: each key is absent ([None]) or holds a value. *)
Module Filters.
Record t := {
  is_palindrome : option bool;
  min_length : option number;
  max_length : option number;
  word_count : option number;
  contains_character : option jsstring
}.

(** [{}]. *)
Definition empty : t := {|
  is_palindrome := None; min_length := None; max_length := None;
  word_count := None; contains_character := None |}.

Definition set_is_palindrome (v : option bool) (f : t) : t := {|
  is_palindrome := v; min_length := min_length f;
  max_length := max_length f; word_count := word_count f;
  contains_character := contains_character f |}.

Definition set_min_length (v : option number) (f : t) : t := {|
  is_palindrome := is_palindrome f; min_length := v;
  max_length := max_length f; word_count := word_count f;
  contains_character := contains_character f |}.

Definition set_max_length (v : option number) (f : t) : t := {|
  is_palindrome := is_palindrome f; min_length := min_length f;
  max_length := v; word_count := word_count f;
  contains_character := contains_character f |}.

Definition set_word_count (v : option number) (f : t) : t := {|
  is_palindrome := is_palindrome f; min_length := min_length f;
  max_length := max_length f; word_count := v;
  contains_character := contains_character f |}.

Definition set_contains_character (v : option jsstring) (f : t) : t := {|
  is_palindrome := is_palindrome f; min_length := min_length f;
  max_length := max_length f; word_count := word_count f;
  contains_character := v |}.

Definition present {A} (o : option A) : Z :=
  match o with Some _ => 1 | None => 0 end.

(** [Object.keys(f).length]. *)
Definition keyCount (f : t) : Z :=
  (present (is_palindrome f) + present (min_length f)
   + present (max_length f) + present (word_count f)
   + present (contains_character f))%Z.
End Filters.

(** The query parameters of [GET /strings], each absent or a string. *)
Module ListQuery.
Record t := {
  is_palindrome : option jsstring;
  min_length : option jsstring;
  max_length : option jsstring;
  word_count : option jsstring;
  contains_character : option jsstring
}.
End ListQuery.

(** What a store operation throws. *)
Record error := { message : jsstring; statusCode : Z }.

Inductive outcome (A : Type) :=
| Return (a : A)
| Throw (e : error).
Arguments Return {A} a.
Arguments Throw {A} e.

(** The bodies of the responses of the query routes. *)
Inductive body :=
| ErrorBody (error : jsstring)
| UnparsedBody (error original_query : jsstring)
| ListBody (data : list StringData.t) (count : Z)
    (filters_applied : Filters.t)
| InterpretedBody (data : list StringData.t) (count : Z)
    (original : jsstring) (parsed_filters : Filters.t).

Record response := { status : Z; content : body }.

(** [if (x)] on a number. *)
Definition truthy (n : Z) : bool := negb (n =? 0)%Z.

(** [list.forEach((x, index) => ...)] threading the state the callback
    mutates. *)
Fixpoint forEachFrom {A St : Type} (f : St -> A -> nat -> St) (index : nat)
    (l : list A) (s : St) : St :=
  match l with
  | [] => s
  | x :: l' => forEachFrom f (S index) l' (f s x index)
  end.

(** A handler step either answers ([inl]) or goes on ([inr]). *)
Definition andThen {R A B : Type} (x : R + A) (f : A -> R + B) : R + B :=
  match x with
  | inl r => inl r
  | inr a => f a
  end.

Notation "x >>= f" := (andThen x f) (at level 50, left associativity).

Local Open Scope Z_scope.

(** Evaluates the string literal of a goal [Forall _ (lit _)] and checks
    its code units one by one. *)
Ltac literal_forall :=
  match goal with
  | |- Forall _ ?l =>
      let v := eval vm_compute in l in
      change l with v; repeat constructor
  end.

(** Inverts the hypotheses [Matches r _ _ _ _] whose pattern [r] is known,
    down to the code units read. *)
Ltac inv_match H := inversion H; subst; clear H.
Ltac inv_matches :=
  repeat match goal with
         | H : Matches (Seq _ _) _ _ _ _ |- _ => inv_match H
         | H : Matches (Alt _ _) _ _ _ _ |- _ => inv_match H
         | H : Matches (Opt _) _ _ _ _ |- _ => inv_match H
         | H : Matches (Lit _) _ _ _ _ |- _ => inv_match H
         | H : Matches (Plus _) _ _ _ _ |- _ => inv_match H
         | H : Matches (Cls _) _ _ _ _ |- _ => inv_match H
         | H : Matches (Group _ _) _ _ _ _ |- _ => inv_match H
         | H : Matches Eos _ _ _ _ |- _ => inv_match H
         end.

(** ** The program *)

Section Program.

(** [String.prototype.toLowerCase]: the case mapping of the Unicode
    character database, a built-in of the language. *)
Variable toLowerCase : jsstring -> jsstring.

(** [generateSHA256]: the hex digest that Node's [crypto] module computes
    over the UTF-8 encoding of the string. *)
Variable generateSHA256 : jsstring -> jsstring.

(** On text of the Basic Latin block and white space the case mapping
    only turns [A]-[Z] into [a]-[z]. *)
Hypothesis toLowerCase_basic :
  forall s, Forall (fun c => isBasic c = true) s ->
            toLowerCase s = toLowerCaseBasic s.

(** *** utils/string_analyser.js *)

Definition isPalindrome (str : jsstring) : bool :=
  let word := removeWhiteSpace (toLowerCase str) in
  let reversedWord := joinEmpty (rev (splitUnits word)) in
  JsString.eqb reversedWord word.

(** One turn of the loop of [countCharacterFrequency].  The tally is a
    plain object, but its keys are single code points, which no inherited
    property is named after.  A count never exceeds the length of the
    string, so [n + 1] is exact. *)
Definition countStep (frequency : gmap jsstring Z) (char : jsstring)
  : gmap jsstring Z :=
  match frequency !! char with
  | Some n =>
      if truthy n then <[char := n + 1]> frequency
      else <[char := 1]> frequency
  | None => <[char := 1]> frequency
  end.

Definition countCharacterFrequency (str : jsstring) : gmap jsstring Z :=
  foldl countStep ∅ (codePoints str).

Definition analyseString (str : jsstring) : Properties.t := {|
  Properties.length := Z.of_nat (length str);
  Properties.is_palindrome := isPalindrome str;
  Properties.unique_characters :=
    Z.of_nat (size (list_to_set (codePoints str) : gset jsstring));
  Properties.word_count := Z.of_nat (length (splitWs (trim str)));
  Properties.sha256_hash := generateSHA256 str;
  Properties.character_frequency := countCharacterFrequency str
|}.

(** *** data/store.js

    The module-level [stringStore] is passed in and handed back. *)

Definition store := JsMap.t StringData.t.

(** [now] is what [new Date().toISOString()] gives at the call. *)
Definition addString (now : jsstring) (value : jsstring)
    (properties : Properties.t) (stringStore : store)
  : outcome StringData.t * store :=
  let id := Properties.sha256_hash properties in
  if JsMap.has id stringStore then
    (Throw {| message := lit "Error: This string already exist";
              statusCode := 409 |},
     stringStore)
  else
    let stringData := {|
      StringData.id := id;
      StringData.value := value;
      StringData.properties := properties;
      StringData.created_at := now |} in
    (Return stringData, JsMap.set id stringData stringStore).

(** The loop shared by the two functions that look a value up: the first
    entry, in insertion order, whose value is [value]. *)
Fixpoint findByValue (value : jsstring)
    (es : list (jsstring * StringData.t))
  : option (jsstring * StringData.t) :=
  match es with
  | [] => None
  | (id, stringData) :: es' =>
      if JsString.eqb (StringData.value stringData) value
      then Some (id, stringData)
      else findByValue value es'
  end.

Definition getStringByValue (value : jsstring) (stringStore : store)
  : option StringData.t :=
  match findByValue value (JsMap.entries stringStore) with
  | Some (_, stringData) => Some stringData
  | None => None
  end.

Definition getAllString (stringStore : store) : list StringData.t :=
  JsMap.values stringStore.

Definition deleteStringByValue (value : jsstring) (stringStore : store)
  : bool * store :=
  match findByValue value (JsMap.entries stringStore) with
  | Some (id, _) => JsMap.delete id stringStore
  | None => (false, stringStore)
  end.

Definition getCount (stringStore : store) : Z := JsMap.size stringStore.

Definition clearAll (stringStore : store) : store := [].

(** *** routes/strings.js: the translator *)

(** [/longer than (\d+)|more than (\d+) character/] *)
Definition longerThanRe : regex :=
  Alt (Seq (Lit (lit "longer than ")) (Group 0 digits))
      (cat [Lit (lit "more than "); Group 1 digits; Lit (lit " character")]).

(** [/shorter than (\d+)|less than (\d+) character/] *)
Definition shorterThanRe : regex :=
  Alt (Seq (Lit (lit "shorter than ")) (Group 0 digits))
      (cat [Lit (lit "less than "); Group 1 digits; Lit (lit " character")]).

(** [/at least (\d+) character/] *)
Definition atLeastRe : regex :=
  cat [Lit (lit "at least "); Group 0 digits; Lit (lit " character")].

(** [/contain(?:ing|s)?\s+(?:the\s+)?letter\s+([a-z])|with\s+(?:the\s+)?letter\s+([a-z])/] *)
Definition letterRe : regex :=
  Alt (cat [Lit (lit "contain"); Opt (Alt (Lit (lit "ing")) (Lit (lit "s")));
            ws; Opt (Seq (Lit (lit "the")) ws); Lit (lit "letter"); ws;
            Group 0 letter])
      (cat [Lit (lit "with"); ws; Opt (Seq (Lit (lit "the")) ws);
            Lit (lit "letter"); ws; Group 1 letter]).

(** [/contain(?:ing|s)?\s+([a-z])$/] *)
Definition containsRe : regex :=
  cat [Lit (lit "contain"); Opt (Alt (Lit (lit "ing")) (Lit (lit "s")));
       ws; Group 0 letter; Eos].

Definition vowels : list jsstring :=
  [lit "a"; lit "e"; lit "i"; lit "o"; lit "u"].
Definition vowelWords : list jsstring :=
  [lit "first"; lit "second"; lit "third"; lit "fourth"; lit "fifth"].

(** Patterns 1 to 3. *)
Definition rulePalindrome (lowerQuery : jsstring) (filters : Filters.t) :=
  if includes lowerQuery (lit "palindrom")
  then Filters.set_is_palindrome (Some true) filters else filters.

Definition ruleSingleWord (lowerQuery : jsstring) (filters : Filters.t) :=
  if includes lowerQuery (lit "single word")
     || includes lowerQuery (lit "one word")
  then Filters.set_word_count (Some (Fin 1)) filters else filters.

Definition ruleTwoWords (lowerQuery : jsstring) (filters : Filters.t) :=
  if includes lowerQuery (lit "two word")
     || includes lowerQuery (lit "double word")
  then Filters.set_word_count (Some (Fin 2)) filters else filters.

(** Pattern 4. *)
Definition ruleLongerThan (lowerQuery : jsstring) (filters : Filters.t) :=
  match search 2 longerThanRe lowerQuery with
  | Some longerThanMatch =>
      let length :=
        parseIntOpt (orElse (group longerThanMatch 0)
                            (group longerThanMatch 1)) in
      Filters.set_min_length (Some (add length (Fin 1))) filters
  | None => filters
  end.

(** Pattern 5. *)
Definition ruleShorterThan (lowerQuery : jsstring) (filters : Filters.t) :=
  match search 2 shorterThanRe lowerQuery with
  | Some shorterThanMatch =>
      let length :=
        parseIntOpt (orElse (group shorterThanMatch 0)
                            (group shorterThanMatch 1)) in
      Filters.set_max_length (Some (sub length (Fin 1))) filters
  | None => filters
  end.

(** Pattern 6. *)
Definition ruleAtLeast (lowerQuery : jsstring) (filters : Filters.t) :=
  match search 1 atLeastRe lowerQuery with
  | Some atLeastMatch =>
      Filters.set_min_length
        (Some (parseIntOpt (group atLeastMatch 0))) filters
  | None => filters
  end.

(** Pattern 7.  The value assigned is [letterMatch[1] || letterMatch[2]];
    one of the two groups is defined whenever the pattern matches. *)
Definition ruleLetter (lowerQuery : jsstring) (filters : Filters.t) :=
  match search 2 letterRe lowerQuery with
  | Some letterMatch =>
      Filters.set_contains_character
        (orElse (group letterMatch 0) (group letterMatch 1)) filters
  | None => filters
  end.

(** Pattern 8. *)
Definition ruleContains (lowerQuery : jsstring) (filters : Filters.t) :=
  match search 1 containsRe lowerQuery with
  | Some containsMatch =>
      Filters.set_contains_character (group containsMatch 0) filters
  | None => filters
  end.

(** Pattern 9: the callback of [vowelWords.forEach]. *)
Definition vowelStep (lowerQuery : jsstring) (filters : Filters.t)
    (word : jsstring) (index : nat) : Filters.t :=
  if includes lowerQuery (word ++ lit " vowel")
  then Filters.set_contains_character (vowels !! index) filters
  else filters.

Definition ruleVowel (lowerQuery : jsstring) (filters : Filters.t) :=
  forEachFrom (vowelStep lowerQuery) 0%nat vowelWords filters.

(** The nine patterns in the order of the source, on the lower-cased
    query. *)
Definition translateLower (lowerQuery : jsstring) : Filters.t :=
  let filters := Filters.empty in
  let filters := rulePalindrome lowerQuery filters in
  let filters := ruleSingleWord lowerQuery filters in
  let filters := ruleTwoWords lowerQuery filters in
  let filters := ruleLongerThan lowerQuery filters in
  let filters := ruleShorterThan lowerQuery filters in
  let filters := ruleAtLeast lowerQuery filters in
  let filters := ruleLetter lowerQuery filters in
  let filters := ruleContains lowerQuery filters in
  let filters := ruleVowel lowerQuery filters in
  filters.

Definition parseNaturalLanguageQuery (query : jsstring) : Filters.t :=
  let lowerQuery := toLowerCase query in
  translateLower lowerQuery.

(** *** routes/strings.js: the query routes *)

Definition lengthOf (s : StringData.t) : number :=
  Fin (Properties.length (StringData.properties s)).
Definition wordCountOf (s : StringData.t) : number :=
  Fin (Properties.word_count (StringData.properties s)).
Definition palindromeOf (s : StringData.t) : bool :=
  Properties.is_palindrome (StringData.properties s).

(** [GET /strings/filter-by-natural-language], step 5: one [filter] per
    key of [parsedFilters] that is not [undefined]. *)
Definition applyParsedFilters (parsedFilters : Filters.t)
    (strings : list StringData.t) : list StringData.t :=
  let strings :=
    match Filters.is_palindrome parsedFilters with
    | Some v => List.filter (fun s => Bool.eqb (palindromeOf s) v) strings
    | None => strings
    end in
  let strings :=
    match Filters.min_length parsedFilters with
    | Some v => List.filter (fun s => geb (lengthOf s) v) strings
    | None => strings
    end in
  let strings :=
    match Filters.max_length parsedFilters with
    | Some v => List.filter (fun s => leb (lengthOf s) v) strings
    | None => strings
    end in
  let strings :=
    match Filters.word_count parsedFilters with
    | Some v => List.filter (fun s => strictEq (wordCountOf s) v) strings
    | None => strings
    end in
  let strings :=
    match Filters.contains_character parsedFilters with
    | Some v => List.filter (fun s => includes (StringData.value s) v) strings
    | None => strings
    end in
  strings.

Definition filterByNaturalLanguage (query : option jsstring)
    (stringStore : store) : response :=
  match query with
  | None | Some [] =>
      {| status := 400;
         content := ErrorBody (lit "Query parameter is required") |}
  | Some query =>
      let parsedFilters := parseNaturalLanguageQuery query in
      if Filters.keyCount parsedFilters =? 0 then
        {| status := 400;
           content :=
             UnparsedBody (lit "Unable to parse natural language query")
                          query |}
      else
        let strings := getAllString stringStore in
        let strings := applyParsedFilters parsedFilters strings in
        {| status := 200;
           content :=
             InterpretedBody strings (Z.of_nat (length strings))
                             query parsedFilters |}
  end.

(** [GET /strings]: the state between two steps is the list filtered so
    far and [filtersApplied]. *)
Definition listState : Type := list StringData.t * Filters.t.

Definition badRequest (msg : string) : response :=
  {| status := 400; content := ErrorBody (lit msg) |}.

Definition stepPalindrome (query : ListQuery.t) (st : listState)
  : response + listState :=
  let '(strings, filtersApplied) := st in
  match ListQuery.is_palindrome query with
  | Some v =>
      let isPalindromeFilter := JsString.eqb v (lit "true") in
      inr (List.filter
             (fun s => Bool.eqb (palindromeOf s) isPalindromeFilter) strings,
           Filters.set_is_palindrome (Some isPalindromeFilter) filtersApplied)
  | None => inr st
  end.

Definition stepMinLength (query : ListQuery.t) (st : listState)
  : response + listState :=
  let '(strings, filtersApplied) := st in
  match ListQuery.min_length query with
  | Some v =>
      let minLength := parseInt v in
      if isNaN minLength then
        inl (badRequest "Invalid min_length parameter: must be a number")
      else
        inr (List.filter (fun s => geb (lengthOf s) minLength) strings,
             Filters.set_min_length (Some minLength) filtersApplied)
  | None => inr st
  end.

Definition stepMaxLength (query : ListQuery.t) (st : listState)
  : response + listState :=
  let '(strings, filtersApplied) := st in
  match ListQuery.max_length query with
  | Some v =>
      let maxLength := parseInt v in
      if isNaN maxLength then
        inl (badRequest "Invalid max_length parameter: must be a number")
      else
        inr (List.filter (fun s => leb (lengthOf s) maxLength) strings,
             Filters.set_max_length (Some maxLength) filtersApplied)
  | None => inr st
  end.

Definition stepWordCount (query : ListQuery.t) (st : listState)
  : response + listState :=
  let '(strings, filtersApplied) := st in
  match ListQuery.word_count query with
  | Some v =>
      let wordCount := parseInt v in
      if isNaN wordCount then
        inl (badRequest "Invalid word_count parameter: must be a number")
      else
        inr (List.filter (fun s => strictEq (wordCountOf s) wordCount) strings,
             Filters.set_word_count (Some wordCount) filtersApplied)
  | None => inr st
  end.

Definition stepContains (query : ListQuery.t) (st : listState)
  : response + listState :=
  let '(strings, filtersApplied) := st in
  match ListQuery.contains_character query with
  | Some char =>
      if negb (length char =? 1)%nat then
        inl (badRequest
               "Invalid contains_character parameter: must be a single character")
      else
        inr (List.filter (fun s => includes (StringData.value s) char) strings,
             Filters.set_contains_character (Some char) filtersApplied)
  | None => inr st
  end.

Definition listStrings (query : ListQuery.t) (stringStore : store)
  : response :=
  let strings := getAllString stringStore in
  let filtersApplied := Filters.empty in
  match
    stepPalindrome query (strings, filtersApplied)
    >>= stepMinLength query
    >>= stepMaxLength query
    >>= stepWordCount query
    >>= stepContains query
  with
  | inl answered => answered
  | inr (strings, filtersApplied) =>
      {| status := 200;
         content :=
           ListBody strings (Z.of_nat (length strings)) filtersApplied |}
  end.

(** The stores the program can be in: [stringStore] starts empty and is
    only changed by [addString], which the create route calls with the
    analysis of the value, by [deleteStringByValue] and by [clearAll]. *)
Inductive Reachable : store -> Prop :=
| ReachEmpty : Reachable []
| ReachAdd now value st :
    Reachable st ->
    Reachable (snd (addString now value (analyseString value) st))
| ReachDelete value st :
    Reachable st -> Reachable (snd (deleteStringByValue value st))
| ReachClear st : Reachable st -> Reachable (clearAll st).

(** What holds of every reachable store: keys are unique, and each entry
    is filed under the hash of its value, which is also its [id]. *)
Definition StoreInv (st : store) : Prop :=
  NoDup (JsMap.keys st)
  /\ Forall (fun e : jsstring * StringData.t =>
               fst e = generateSHA256 (StringData.value (snd e))
               /\ StringData.id (snd e) = fst e) st.

(** The filters of a filter object as one predicate on a record. *)
Definition satisfies (f : Filters.t) (s : StringData.t) : bool :=
  match Filters.is_palindrome f with
  | Some v => Bool.eqb (palindromeOf s) v | None => true end
  && match Filters.min_length f with
     | Some v => geb (lengthOf s) v | None => true end
  && match Filters.max_length f with
     | Some v => leb (lengthOf s) v | None => true end
  && match Filters.word_count f with
     | Some v => strictEq (wordCountOf s) v | None => true end
  && match Filters.contains_character f with
     | Some v => includes (StringData.value s) v | None => true end.

(** The filter object that the parameters of [GET /strings] ask for. *)
Definition requestedFilters (query : ListQuery.t) : Filters.t := {|
  Filters.is_palindrome :=
    (fun v => JsString.eqb v (lit "true")) <$> ListQuery.is_palindrome query;
  Filters.min_length := parseInt <$> ListQuery.min_length query;
  Filters.max_length := parseInt <$> ListQuery.max_length query;
  Filters.word_count := parseInt <$> ListQuery.word_count query;
  Filters.contains_character := ListQuery.contains_character query
|}.

(** The parameters pass the checks of [GET /strings]: the numeric ones
    parse to a number, the character is one code unit long. *)
Definition validNumber (o : option jsstring) : bool :=
  match o with
  | Some v => negb (isNaN (parseInt v))
  | None => true
  end.

Definition validQuery (query : ListQuery.t) : bool :=
  validNumber (ListQuery.min_length query)
  && validNumber (ListQuery.max_length query)
  && validNumber (ListQuery.word_count query)
  && match ListQuery.contains_character query with
     | Some char => (length char =? 1)%nat
     | None => true
     end.

(** The value of a string of decimal digits. *)
Definition decimalValue (ds : jsstring) : Z :=
  fold_left (fun acc c => acc * 10 + (Z.of_N c - 48)) ds 0.

(** [ds] is a numeral for [n]: a non-empty string of digits of value [n]. *)
Definition isNumeral (ds : jsstring) (n : Z) : Prop :=
  ds <> [] /\ Forall (fun c => isDigit c = true) ds /\ decimalValue ds = n.

(** The text after a numeral does not go on with a digit. *)
Definition endsNumber (post : jsstring) : Prop :=
  forall c post', post = c :: post' -> isDigit c = false.

(** The pattern has no match that starts inside [pre], so that a match at
    the head of [rest] is the leftmost one of [pre ++ rest]. *)
Definition noEarlierMatch (n : nat) (r : regex) (pre rest : jsstring) : Prop :=
  forall i, (i < length pre)%nat -> matchAt n r (drop i (pre ++ rest)) = None.

(** What pattern 9 leaves in [contains_character], given what was there. *)
Definition vowelChoice (lowerQuery : jsstring) (before : option jsstring)
  : option jsstring :=
  forEachFrom
    (fun acc word index =>
       if includes lowerQuery (word ++ lit " vowel")
       then vowels !! index else acc)
    0%nat vowelWords before.

(** No rule of the translator applies to the lower-cased query. *)
Definition noRuleMatches (lowerQuery : jsstring) : Prop :=
  includes lowerQuery (lit "palindrom") = false
  /\ includes lowerQuery (lit "single word") = false
  /\ includes lowerQuery (lit "one word") = false
  /\ includes lowerQuery (lit "two word") = false
  /\ includes lowerQuery (lit "double word") = false
  /\ search 2 longerThanRe lowerQuery = None
  /\ search 2 shorterThanRe lowerQuery = None
  /\ search 1 atLeastRe lowerQuery = None
  /\ search 2 letterRe lowerQuery = None
  /\ search 1 containsRe lowerQuery = None
  /\ Forall (fun word => includes lowerQuery (word ++ lit " vowel") = false)
            vowelWords.

(** The sum of the counts of a tally. *)
Definition sumCounts (m : gmap jsstring Z) : Z :=
  map_fold (fun _ n acc => n + acc) 0 m.

(** Every count of a tally is at least one. *)
Definition positiveCounts (m : gmap jsstring Z) : Prop :=
  forall k n, m !! k = Some n -> 1 <= n.

(** The record that [addString] builds when the create route calls it
    with the analysis of a value. *)
Definition recordOf (now value : jsstring) : StringData.t := {|
  StringData.id := generateSHA256 value;
  StringData.value := value;
  StringData.properties := analyseString value;
  StringData.created_at := now
|}.

(** The data model of the store: no value is stored twice, and every entry
    is the record of its value, filed under the digest of the value. *)
Definition WellFormed (st : store) : Prop :=
  NoDup (StringData.value <$> getAllString st)
  /\ Forall (fun e : jsstring * StringData.t =>
               exists now,
                 e = (generateSHA256 (StringData.value (snd e)),
                      recordOf now (StringData.value (snd e)))) st.

(** Words and gaps: a word is a non-empty string without white space, a
    gap a non-empty string of white space; [joinWords] writes words with a
    gap before each word but the first. *)
Definition blank (s : jsstring) : Prop :=
  Forall (fun c => isWhiteSpace c = true) s.
Definition isWord (w : jsstring) : Prop :=
  w <> [] /\ Forall (fun c => isWhiteSpace c = false) w.
Definition isGap (g : jsstring) : Prop := g <> [] /\ blank g.

Fixpoint joinWords (first : jsstring) (rest : list (jsstring * jsstring))
  : jsstring :=
  match rest with
  | [] => first
  | (gap, word) :: rest' => first ++ gap ++ joinWords word rest'
  end.

(** The number of times [k] occurs in a list of strings. *)
Definition occurrences (k : jsstring) (l : list jsstring) : Z :=
  Z.of_nat (length (List.filter (JsString.eqb k) l)).

(** The normal form that the palindrome check compares with its reversal,
    on text of the Basic Latin block. *)
Definition normalised (str : jsstring) : jsstring :=
  removeWhiteSpace (toLowerCaseBasic str).

(** ** Properties *)

(** *** Strings *)

Lemma eqb_eq (a b : jsstring) : JsString.eqb a b = true <-> a = b.
Proof.
  revert b; induction a as [|x a IH]; intros [|y b]; simpl; try easy.
  rewrite andb_true_iff, N.eqb_eq, IH. split.
  - intros [-> ->]; reflexivity.
  - intros [= -> ->]; auto.
Qed.

Lemma eqb_refl (a : jsstring) : JsString.eqb a a = true.
Proof. apply eqb_eq; reflexivity. Qed.

Lemma eqb_neq (a b : jsstring) : JsString.eqb a b = false <-> a <> b.
Proof.
  rewrite <- eqb_eq. destruct (JsString.eqb a b); split; congruence.
Qed.

Lemma join_rev_split (w : jsstring) : joinEmpty (rev (splitUnits w)) = rev w.
Proof.
  unfold joinEmpty, splitUnits.
  induction w as [|c w IH]; simpl; [reflexivity|].
  rewrite concat_app, IH; simpl. reflexivity.
Qed.

Lemma trimStart_white (s : jsstring) :
  Forall (fun c => isWhiteSpace c = true) s -> trimStart s = [].
Proof.
  induction 1 as [|c s Hc _ IH]; simpl; [reflexivity|].
  rewrite Hc. exact IH.
Qed.

Lemma trim_white (s : jsstring) :
  Forall (fun c => isWhiteSpace c = true) s -> trim s = [].
Proof.
  intros H. unfold trim, trimEnd. rewrite (trimStart_white s H). reflexivity.
Qed.

Lemma removeWhiteSpace_white (s : jsstring) :
  Forall (fun c => isWhiteSpace c = true) s -> removeWhiteSpace s = [].
Proof.
  unfold removeWhiteSpace.
  induction 1 as [|c s Hc _ IH]; simpl; [reflexivity|].
  rewrite Hc; simpl. exact IH.
Qed.

Lemma white_not_upper (c : codeunit) :
  isWhiteSpace c = true -> lowerBasicLatin c = c.
Proof.
  unfold isWhiteSpace, lowerBasicLatin. intros H.
  destruct ((65 <=? c)%N && (c <=? 90)%N) eqn:E; [|reflexivity].
  apply andb_true_iff in E as [E1 E2].
  apply N.leb_le in E1, E2.
  repeat (apply orb_true_iff in H as [H|H]);
    repeat match goal with
           | X : (_ && _) = true |- _ => apply andb_true_iff in X as [? ?]
           | X : (_ <=? _)%N = true |- _ => apply N.leb_le in X
           | X : (_ =? _)%N = true |- _ => apply N.eqb_eq in X
           end; lia.
Qed.

Lemma white_is_basic (s : jsstring) :
  Forall (fun c => isWhiteSpace c = true) s ->
  Forall (fun c => isBasic c = true) s.
Proof.
  intros Hs. eapply Forall_impl; [exact Hs|].
  intros c H. unfold isBasic. rewrite H. apply orb_true_r.
Qed.

Lemma lower_white (s : jsstring) :
  Forall (fun c => isWhiteSpace c = true) s -> toLowerCaseBasic s = s.
Proof.
  unfold toLowerCaseBasic.
  induction 1 as [|c s Hc _ IH]; simpl; [reflexivity|].
  rewrite (white_not_upper c Hc), IH. reflexivity.
Qed.

(** *** The tally of [countCharacterFrequency] *)

Lemma sumCounts_insert_fresh (m : gmap jsstring Z) k v :
  m !! k = None -> sumCounts (<[k := v]> m) = v + sumCounts m.
Proof.
  intros H. unfold sumCounts.
  rewrite map_fold_insert_L; [reflexivity| |exact H].
  intros; lia.
Qed.

Lemma sumCounts_insert_present (m : gmap jsstring Z) k n v :
  m !! k = Some n -> sumCounts (<[k := v]> m) = sumCounts m - n + v.
Proof.
  intros H. rewrite <- insert_delete_eq.
  rewrite sumCounts_insert_fresh by apply lookup_delete_eq.
  unfold sumCounts at 2.
  rewrite (map_fold_delete_L _ _ k n m); [fold (sumCounts (delete k m)); lia| |exact H].
  intros; lia.
Qed.

Lemma countStep_spec (m : gmap jsstring Z) (char : jsstring) :
  positiveCounts m ->
  positiveCounts (countStep m char)
  /\ dom (countStep m char) = {[char]} ∪ dom m
  /\ sumCounts (countStep m char) = sumCounts m + 1.
Proof.
  intros Hpos. unfold countStep.
  destruct (m !! char) as [n|] eqn:E.
  - pose proof (Hpos _ _ E) as Hn.
    assert (truthy n = true) as ->.
    { unfold truthy. apply negb_true_iff, Z.eqb_neq. lia. }
    split; [|split].
    + intros k v. rewrite lookup_insert. case_decide.
      * intros [= <-]. lia.
      * apply Hpos.
    + apply dom_insert_L.
    + rewrite (sumCounts_insert_present m char n) by exact E. lia.
  - split; [|split].
    + intros k v. rewrite lookup_insert. case_decide.
      * intros [= <-]. lia.
      * apply Hpos.
    + apply dom_insert_L.
    + rewrite sumCounts_insert_fresh by exact E. lia.
Qed.

Lemma count_loop_spec (chars : list jsstring) (m : gmap jsstring Z) :
  positiveCounts m ->
  positiveCounts (foldl countStep m chars)
  /\ dom (foldl countStep m chars) = list_to_set chars ∪ dom m
  /\ sumCounts (foldl countStep m chars)
     = sumCounts m + Z.of_nat (length chars).
Proof.
  revert m. induction chars as [|c chars IH]; intros m Hpos; simpl.
  - split; [exact Hpos|]. split; [|lia].
    symmetry. apply (left_id_L ∅ (∪)).
  - destruct (countStep_spec m c Hpos) as (Hp & Hd & Hs).
    destruct (IH _ Hp) as (Hp' & Hd' & Hs').
    split; [exact Hp'|]. split.
    + rewrite Hd', Hd.
      rewrite (assoc_L (∪)), (comm_L (∪) (list_to_set chars)).
      reflexivity.
    + rewrite Hs', Hs. lia.
Qed.

(** C10: for every string, [unique_characters] is the number of keys of
    [character_frequency], every count of [character_frequency] is at
    least one, and the counts add up to the number of code points of the
    string. *)
Theorem C10_frequency_consistent (str : jsstring) :
  let p := analyseString str in
  Properties.unique_characters p
    = Z.of_nat (size (dom (Properties.character_frequency p)))
  /\ Properties.unique_characters p
    = Z.of_nat (size (Properties.character_frequency p))
  /\ positiveCounts (Properties.character_frequency p)
  /\ sumCounts (Properties.character_frequency p)
     = Z.of_nat (length (codePoints str)).
Proof.
  cbn [analyseString Properties.unique_characters
       Properties.character_frequency].
  unfold countCharacterFrequency.
  assert (positiveCounts ∅) as H0.
  { intros k n. rewrite lookup_empty. discriminate. }
  destruct (count_loop_spec (codePoints str) ∅ H0) as (Hp & Hd & Hs).
  assert (dom (foldl countStep ∅ (codePoints str))
          = list_to_set (codePoints str)) as Hdom.
  { rewrite Hd, dom_empty_L. apply (right_id_L ∅ (∪)). }
  split; [|split; [|split]].
  - rewrite Hdom. reflexivity.
  - rewrite <- size_dom, Hdom. reflexivity.
  - exact Hp.
  - rewrite Hs. unfold sumCounts. rewrite map_fold_empty. lia.
Qed.

(** *** The analyser *)

Lemma isPalindrome_basic (str : jsstring) :
  Forall (fun c => isBasic c = true) str ->
  isPalindrome str
  = JsString.eqb (rev (removeWhiteSpace (toLowerCaseBasic str)))
                 (removeWhiteSpace (toLowerCaseBasic str)).
Proof.
  intros H. unfold isPalindrome.
  rewrite (toLowerCase_basic str H), join_rev_split. reflexivity.
Qed.

(** C1, as the code has it: the palindrome check lower-cases the value,
    removes white space and compares with the reversal, so ["racecar"] is a
    palindrome while ["race a car"] (normalised to ["raceacar"]) and
    ["hello"] are not. *)
Theorem C1_palindrome_examples :
  Properties.is_palindrome (analyseString (lit "racecar")) = true
  /\ Properties.is_palindrome (analyseString (lit "race a car")) = false
  /\ Properties.is_palindrome (analyseString (lit "hello")) = false.
Proof.
  cbn [analyseString Properties.is_palindrome].
  repeat split; rewrite isPalindrome_basic by literal_forall;
    vm_compute; reflexivity.
Qed.

(** C9: every non-empty string made of white space only is reported as a
    palindrome, the normalised string being empty. *)
Theorem C9_whitespace_is_palindrome (str : jsstring) :
  str <> [] ->
  Forall (fun c => isWhiteSpace c = true) str ->
  removeWhiteSpace (toLowerCase str) = []
  /\ Properties.is_palindrome (analyseString str) = true.
Proof.
  intros _ H.
  assert (removeWhiteSpace (toLowerCase str) = []) as E.
  { rewrite (toLowerCase_basic str (white_is_basic str H)).
    rewrite (lower_white str H). apply removeWhiteSpace_white, H. }
  split; [exact E|].
  cbn [analyseString Properties.is_palindrome].
  unfold isPalindrome. rewrite E. reflexivity.
Qed.

(** C4: the word count of an empty or all-white-space value is 1, the
    trimmed value being the empty string, which splits into one empty
    token; the word count of ["hello world"] is 2. *)
Theorem C4_word_count_boundary :
  (forall value : jsstring,
      Forall (fun c => isWhiteSpace c = true) value ->
      splitWs (trim value) = [[]]
      /\ Properties.word_count (analyseString value) = 1)
  /\ Properties.word_count (analyseString []) = 1
  /\ Properties.word_count (analyseString (lit "hello world")) = 2.
Proof.
  split; [|split].
  - intros value H. cbn [analyseString Properties.word_count].
    rewrite (trim_white value H). split; reflexivity.
  - reflexivity.
  - vm_compute. reflexivity.
Qed.

(** *** The map of the store *)

Lemma get_none_iff {V} (k : jsstring) (m : JsMap.t V) :
  JsMap.get k m = None <-> k ∉ JsMap.keys m.
Proof.
  induction m as [|[k' v] m IH]; simpl.
  - split; [intros _; apply not_elem_of_nil|reflexivity].
  - rewrite not_elem_of_cons.
    destruct (JsString.eqb k' k) eqn:E.
    + apply eqb_eq in E. split; [discriminate|]. intros [Hne _]. congruence.
    + apply eqb_neq in E. rewrite IH. split; [intros H|intros [_ H]]; auto.
Qed.

Lemma has_false_iff {V} (k : jsstring) (m : JsMap.t V) :
  JsMap.has k m = false <-> k ∉ JsMap.keys m.
Proof.
  rewrite <- get_none_iff. unfold JsMap.has.
  destruct (JsMap.get k m); split; congruence.
Qed.

Lemma set_fresh {V} (k : jsstring) (v : V) (m : JsMap.t V) :
  k ∉ JsMap.keys m -> JsMap.set k v m = m ++ [(k, v)].
Proof.
  induction m as [|[k' v'] m IH]; simpl; [reflexivity|].
  rewrite not_elem_of_cons. intros [Hne Hm].
  assert (JsString.eqb k' k = false) as -> by (apply eqb_neq; congruence).
  rewrite (IH Hm). reflexivity.
Qed.

Lemma remove_absent {V} (k : jsstring) (m : JsMap.t V) :
  k ∉ JsMap.keys m -> JsMap.remove k m = m.
Proof.
  induction m as [|[k' v'] m IH]; simpl; [reflexivity|].
  rewrite not_elem_of_cons. intros [Hne Hm].
  assert (JsString.eqb k' k = false) as -> by (apply eqb_neq; congruence).
  rewrite (IH Hm). reflexivity.
Qed.

Lemma remove_middle {V} (k : jsstring) (v : V) (l1 l2 : JsMap.t V) :
  k ∉ JsMap.keys l1 -> JsMap.remove k (l1 ++ (k, v) :: l2) = l1 ++ l2.
Proof.
  induction l1 as [|[k' v'] l1 IH]; simpl.
  - intros _. rewrite eqb_refl. reflexivity.
  - rewrite not_elem_of_cons. intros [Hne Hm].
    assert (JsString.eqb k' k = false) as -> by (apply eqb_neq; congruence).
    rewrite (IH Hm). reflexivity.
Qed.

Lemma has_middle {V} (k : jsstring) (v : V) (l1 l2 : JsMap.t V) :
  JsMap.has k (l1 ++ (k, v) :: l2) = true.
Proof.
  destruct (JsMap.has k (l1 ++ (k, v) :: l2)) eqn:E; [reflexivity|].
  apply has_false_iff in E. exfalso. apply E.
  unfold JsMap.keys. rewrite fmap_app. apply elem_of_app. right.
  simpl. apply elem_of_cons. left. reflexivity.
Qed.

(** *** The store *)

(** What a search by value finds: the entry is in the store, everything
    before it has another value. *)
Lemma findByValue_some (value : jsstring) (es : list (jsstring * StringData.t))
    (id : jsstring) (d : StringData.t) :
  findByValue value es = Some (id, d) ->
  exists l1 l2,
    es = l1 ++ (id, d) :: l2
    /\ StringData.value d = value
    /\ Forall (fun e => StringData.value (snd e) <> value) l1.
Proof.
  induction es as [|[k x] es IH]; simpl; [discriminate|].
  destruct (JsString.eqb (StringData.value x) value) eqn:E.
  - intros [= -> ->]. apply eqb_eq in E.
    exists [], es. repeat split; [exact E|constructor].
  - intros H. destruct (IH H) as (l1 & l2 & -> & Hv & Hl).
    exists ((k, x) :: l1), l2. repeat split; [exact Hv|].
    constructor; [apply eqb_neq, E|exact Hl].
Qed.

Lemma findByValue_none (value : jsstring) (es : list (jsstring * StringData.t)) :
  findByValue value es = None <->
  Forall (fun e => StringData.value (snd e) <> value) es.
Proof.
  induction es as [|[k x] es IH]; simpl.
  - split; [constructor|reflexivity].
  - rewrite Forall_cons; simpl.
    destruct (JsString.eqb (StringData.value x) value) eqn:E.
    + apply eqb_eq in E. split; [discriminate|]. intros [Hne _]. congruence.
    + apply eqb_neq in E. rewrite IH. split; [intros H|intros [_ H]]; auto.
Qed.

Lemma findByValue_app_none (value : jsstring)
    (l1 l2 : list (jsstring * StringData.t)) :
  findByValue value l1 = None ->
  findByValue value (l1 ++ l2) = findByValue value l2.
Proof.
  induction l1 as [|[k x] l1 IH]; simpl; [reflexivity|].
  destruct (JsString.eqb (StringData.value x) value); [discriminate|exact IH].
Qed.

(** Under the invariant, a value whose hash is not a key is not stored. *)
Lemma absent_key_absent_value (value : jsstring) (st : store) :
  StoreInv st ->
  generateSHA256 value ∉ JsMap.keys st ->
  findByValue value st = None.
Proof.
  intros [_ Hall] Hk. apply findByValue_none.
  rewrite Forall_forall in Hall |- *. intros [k x] Hin Hv; simpl in *.
  destruct (Hall _ Hin) as [Hkey _]; simpl in Hkey.
  apply Hk. rewrite <- Hv, <- Hkey.
  unfold JsMap.keys. apply list_elem_of_fmap.
  exists (k, x). split; [reflexivity|exact Hin].
Qed.

Lemma remove_keys_subset {V} (k x : jsstring) (m : JsMap.t V) :
  x ∈ JsMap.keys (JsMap.remove k m) -> x ∈ JsMap.keys m.
Proof.
  induction m as [|[k' v'] m IH]; simpl; [easy|].
  destruct (JsString.eqb k' k); simpl.
  - intros H. apply elem_of_cons. right. exact H.
  - rewrite !elem_of_cons. intros [H|H]; [left|right]; auto.
Qed.

Lemma remove_NoDup {V} (k : jsstring) (m : JsMap.t V) :
  NoDup (JsMap.keys m) -> NoDup (JsMap.keys (JsMap.remove k m)).
Proof.
  induction m as [|[k' v'] m IH]; simpl; [easy|].
  rewrite NoDup_cons. intros [Hk Hm].
  destruct (JsString.eqb k' k); simpl; [exact Hm|].
  apply NoDup_cons. split; [|exact (IH Hm)].
  intros H. apply Hk. exact (remove_keys_subset _ _ _ H).
Qed.

Lemma remove_Forall {V} (P : jsstring * V -> Prop) (k : jsstring)
    (m : JsMap.t V) :
  Forall P m -> Forall P (JsMap.remove k m).
Proof.
  induction 1 as [|[k' v'] m Hx Hm IH]; simpl; [constructor|].
  destruct (JsString.eqb k' k); [exact Hm|constructor; assumption].
Qed.

Lemma addString_fresh (now value : jsstring) (p : Properties.t) (st : store) :
  JsMap.has (Properties.sha256_hash p) st = false ->
  let d := {| StringData.id := Properties.sha256_hash p;
              StringData.value := value;
              StringData.properties := p;
              StringData.created_at := now |} in
  addString now value p st
  = (Return d, st ++ [(Properties.sha256_hash p, d)]).
Proof.
  intros H. unfold addString. rewrite H.
  rewrite set_fresh by (apply has_false_iff, H). reflexivity.
Qed.

Lemma addString_duplicate (now value : jsstring) (p : Properties.t)
    (st : store) :
  JsMap.has (Properties.sha256_hash p) st = true ->
  addString now value p st
  = (Throw {| message := lit "Error: This string already exist";
              statusCode := 409 |}, st).
Proof. intros H. unfold addString. rewrite H. reflexivity. Qed.

Lemma has_after_add (now value : jsstring) (p : Properties.t) (st : store) :
  JsMap.has (Properties.sha256_hash p) (snd (addString now value p st)) = true.
Proof.
  destruct (JsMap.has (Properties.sha256_hash p) st) eqn:E.
  - rewrite addString_duplicate by exact E. exact E.
  - rewrite addString_fresh by exact E. cbn [snd].
    apply (has_middle _ _ st []).
Qed.

Lemma inv_empty : StoreInv [].
Proof. split; [apply NoDup_nil_2|constructor]. Qed.

Lemma inv_add (now value : jsstring) (st : store) :
  StoreInv st -> StoreInv (snd (addString now value (analyseString value) st)).
Proof.
  intros [Hnd Hall].
  destruct (JsMap.has (Properties.sha256_hash (analyseString value)) st) eqn:E.
  - rewrite addString_duplicate by exact E. split; assumption.
  - rewrite addString_fresh by exact E. cbn [snd].
    apply has_false_iff in E. split.
    + unfold JsMap.keys in *. rewrite fmap_app. apply NoDup_app.
      split; [exact Hnd|]. split; [|apply NoDup_singleton].
      intros x Hx Hx'. simpl in Hx'. apply list_elem_of_singleton in Hx'.
      subst x. exact (E Hx).
    + apply Forall_app. split; [exact Hall|].
      constructor; [|constructor]. split; reflexivity.
Qed.

Lemma inv_delete (value : jsstring) (st : store) :
  StoreInv st -> StoreInv (snd (deleteStringByValue value st)).
Proof.
  intros [Hnd Hall]. unfold deleteStringByValue.
  destruct (findByValue value (JsMap.entries st)) as [[id d]|];
    [|split; assumption].
  cbn [JsMap.delete snd]. split.
  - apply remove_NoDup, Hnd.
  - apply remove_Forall, Hall.
Qed.

Lemma reachable_inv (st : store) : Reachable st -> StoreInv st.
Proof.
  induction 1 as [|now value st _ IH|value st _ IH|st _ _].
  - exact inv_empty.
  - apply inv_add, IH.
  - apply inv_delete, IH.
  - exact inv_empty.
Qed.

(** C3: adding the same value twice fails the second time with the 409
    error and leaves the store, and so its count, as the first call left it;
    when the hash is not yet a key, the first call appends the new record
    and returns it.  This holds for any [properties]; the create route
    passes [analyseString value], whose hash is the digest of the value. *)
Theorem C3_duplicate_add (now1 now2 value : jsstring)
    (properties : Properties.t) (st : store) :
  let first := addString now1 value properties st in
  let second := addString now2 value properties (snd first) in
  fst second = Throw {| message := lit "Error: This string already exist";
                        statusCode := 409 |}
  /\ snd second = snd first
  /\ getCount (snd second) = getCount (snd first)
  /\ (JsMap.has (Properties.sha256_hash properties) st = false ->
      let d := {| StringData.id := Properties.sha256_hash properties;
                  StringData.value := value;
                  StringData.properties := properties;
                  StringData.created_at := now1 |} in
      fst first = Return d
      /\ snd first = st ++ [(Properties.sha256_hash properties, d)]
      /\ getCount (snd first) = getCount st + 1
      /\ getStringByValue value (snd first)
         = match getStringByValue value st with
           | Some earlier => Some earlier
           | None => Some d
           end)
  /\ Properties.sha256_hash (analyseString value) = generateSHA256 value.
Proof.
  intros first second.
  pose proof (has_after_add now1 value properties st) as Hhas.
  fold first in Hhas.
  assert (second = (Throw {| message := lit "Error: This string already exist";
                             statusCode := 409 |}, snd first)) as E.
  { unfold second. apply addString_duplicate, Hhas. }
  rewrite E. cbn [fst snd].
  split; [reflexivity|]. split; [reflexivity|]. split; [reflexivity|].
  split; [|reflexivity].
  intros Hfresh. cbv zeta. unfold first.
  rewrite (addString_fresh now1 value properties st Hfresh). cbn [fst snd].
  split; [reflexivity|]. split; [reflexivity|]. split.
  - unfold getCount, JsMap.size. rewrite length_app. simpl. lia.
  - unfold getStringByValue, JsMap.entries.
    destruct (findByValue value st) as [[k x]|] eqn:Hfind.
    + apply findByValue_some in Hfind as (l1 & l2 & -> & Hv & Hl1).
      apply findByValue_none in Hl1.
      rewrite <- app_assoc, (findByValue_app_none _ _ _ Hl1). simpl.
      apply eqb_eq in Hv. rewrite Hv. reflexivity.
    + rewrite (findByValue_app_none _ _ _ Hfind). simpl.
      rewrite eqb_refl. reflexivity.
Qed.

Lemma delete_found (value id : jsstring) (d : StringData.t) (st : store) :
  StoreInv st ->
  findByValue value st = Some (id, d) ->
  exists l1 l2,
    st = l1 ++ (StringData.id d, d) :: l2
    /\ StringData.value d = value
    /\ deleteStringByValue value st = (true, l1 ++ l2)
    /\ findByValue value (l1 ++ l2) = None.
Proof.
  intros [Hnd Hall] Hfind.
  destruct (findByValue_some _ _ _ _ Hfind) as (l1 & l2 & -> & Hv & Hl1).
  apply Forall_app in Hall as [Hall1 Hall2].
  apply Forall_cons in Hall2 as [[Hkey Hid] Hall2]. simpl in Hkey, Hid.
  unfold JsMap.keys in Hnd. rewrite fmap_app in Hnd.
  apply NoDup_app in Hnd as (Hnd1 & Hdisj & Hnd2).
  simpl in Hnd2. apply NoDup_cons in Hnd2 as [Hnot2 Hnd2].
  assert (id ∉ JsMap.keys l1) as Hnot1.
  { intros Hin. apply (Hdisj _ Hin). simpl. apply elem_of_cons. left.
    reflexivity. }
  exists l1, l2. rewrite Hid. repeat split.
  - exact Hv.
  - unfold deleteStringByValue, JsMap.entries. rewrite Hfind.
    unfold JsMap.delete. rewrite has_middle, (remove_middle _ _ _ _ Hnot1).
    reflexivity.
  - apply findByValue_none, Forall_app. split; [exact Hl1|].
    rewrite Forall_forall in Hall2 |- *. intros [k x] Hin Hx. simpl in Hx.
    destruct (Hall2 _ Hin) as [Hk _]. simpl in Hk.
    apply Hnot2. apply list_elem_of_fmap. exists (k, x).
    split; [|exact Hin]. simpl. congruence.
Qed.

(** C8: in a reachable store, deleting a value just inserted reports true,
    after which the value is absent, a second deletion reports false and
    changes nothing, and the store is back to what it was before the
    insertion; in general a deletion that reports true removes the one
    record holding the value and keeps all others as they were, in order,
    and one that reports false changes nothing. *)
Theorem C8_delete_by_value :
  (forall (now value : jsstring) (st : store) (d : StringData.t),
      Reachable st ->
      fst (addString now value (analyseString value) st) = Return d ->
      let st1 := snd (addString now value (analyseString value) st) in
      let del1 := deleteStringByValue value st1 in
      let del2 := deleteStringByValue value (snd del1) in
      fst del1 = true
      /\ getStringByValue value (snd del1) = None
      /\ fst del2 = false
      /\ snd del2 = snd del1
      /\ snd del1 = st)
  /\ (forall (value : jsstring) (st : store),
         Reachable st ->
         let del := deleteStringByValue value st in
         getStringByValue value (snd del) = None
         /\ ((fst del = true
              /\ exists l1 d l2,
                   st = l1 ++ (StringData.id d, d) :: l2
                   /\ StringData.value d = value
                   /\ snd del = l1 ++ l2)
             \/ (fst del = false /\ snd del = st))).
Proof.
  split.
  - intros now value st d Hreach Hadd st1 del1 del2.
    pose proof (reachable_inv st Hreach) as Hinv.
    destruct (JsMap.has (Properties.sha256_hash (analyseString value)) st)
      eqn:Hhas.
    { rewrite addString_duplicate in Hadd by exact Hhas. discriminate. }
    pose proof Hhas as Hkey. apply has_false_iff in Hkey.
    cbn [analyseString Properties.sha256_hash] in Hkey.
    pose proof (absent_key_absent_value value st Hinv Hkey) as Hnone.
    assert (del1 = (true, st)) as E1.
    { unfold del1, st1. rewrite addString_fresh by exact Hhas. cbn [snd].
      unfold deleteStringByValue, JsMap.entries.
      rewrite (findByValue_app_none _ _ _ Hnone). simpl.
      rewrite eqb_refl. unfold JsMap.delete.
      rewrite has_middle, (remove_middle _ _ st [] Hkey), app_nil_r.
      reflexivity. }
    assert (del2 = (false, st)) as E2.
    { unfold del2. rewrite E1. cbn [snd].
      unfold deleteStringByValue, JsMap.entries. rewrite Hnone. reflexivity. }
    rewrite E2, E1. cbn [fst snd]. repeat split.
    unfold getStringByValue, JsMap.entries. rewrite Hnone. reflexivity.
  - intros value st Hreach del.
    pose proof (reachable_inv st Hreach) as Hinv.
    destruct (findByValue value st) as [[id d]|] eqn:Hfind.
    + destruct (delete_found value id d st Hinv Hfind)
        as (l1 & l2 & Hst & Hv & Hdel & Hgone).
      unfold del. rewrite Hdel. cbn [fst snd]. split.
      * unfold getStringByValue, JsMap.entries. rewrite Hgone. reflexivity.
      * left. split; [reflexivity|]. exists l1, d, l2. auto.
    + unfold del, deleteStringByValue, JsMap.entries. rewrite Hfind.
      cbn [fst snd]. split.
      * unfold getStringByValue, JsMap.entries. rewrite Hfind. reflexivity.
      * right. split; reflexivity.
Qed.

(** *** The filters *)

Lemma filter_filter_and {A} (f g : A -> bool) (l : list A) :
  List.filter g (List.filter f l) = List.filter (fun x => f x && g x) l.
Proof.
  induction l as [|x l IH]; simpl; [reflexivity|].
  destruct (f x); simpl; [destruct (g x)|]; rewrite IH; reflexivity.
Qed.

Lemma filter_all {A} (l : list A) : List.filter (fun _ => true) l = l.
Proof. induction l as [|x l IH]; simpl; [|rewrite IH]; reflexivity. Qed.

Lemma filter_option {A B} (o : option B) (p : B -> A -> bool) (l : list A) :
  match o with Some v => List.filter (p v) l | None => l end
  = List.filter (fun x => match o with Some v => p v x | None => true end) l.
Proof. destruct o; [reflexivity|]. symmetry. apply filter_all. Qed.

Lemma applyParsedFilters_filter (f : Filters.t) (strings : list StringData.t) :
  applyParsedFilters f strings = List.filter (satisfies f) strings.
Proof.
  unfold applyParsedFilters.
  rewrite (filter_option (Filters.is_palindrome f)
             (fun v s => Bool.eqb (palindromeOf s) v)).
  rewrite (filter_option (Filters.min_length f)
             (fun v s => geb (lengthOf s) v)).
  rewrite (filter_option (Filters.max_length f)
             (fun v s => leb (lengthOf s) v)).
  rewrite (filter_option (Filters.word_count f)
             (fun v s => strictEq (wordCountOf s) v)).
  rewrite (filter_option (Filters.contains_character f)
             (fun v s => includes (StringData.value s) v)).
  rewrite !filter_filter_and. apply List.filter_ext.
  intros s. unfold satisfies. rewrite !andb_assoc. reflexivity.
Qed.

Lemma satisfies_spec (f : Filters.t) (s : StringData.t) :
  satisfies f s = true <->
  (forall v, Filters.is_palindrome f = Some v -> palindromeOf s = v)
  /\ (forall v, Filters.min_length f = Some v -> geb (lengthOf s) v = true)
  /\ (forall v, Filters.max_length f = Some v -> leb (lengthOf s) v = true)
  /\ (forall v, Filters.word_count f = Some v ->
                strictEq (wordCountOf s) v = true)
  /\ (forall v, Filters.contains_character f = Some v ->
                includes (StringData.value s) v = true).
Proof.
  unfold satisfies. rewrite !andb_true_iff.
  destruct (Filters.is_palindrome f) as [a|], (Filters.min_length f) as [b|],
    (Filters.max_length f) as [c|], (Filters.word_count f) as [d|],
    (Filters.contains_character f) as [e|].
  all: split;
    [ intros ((((H1 & H2) & H3) & H4) & H5);
      repeat split; intros ? [= <-]; try assumption;
      apply Bool.eqb_prop, H1
    | intros (H1 & H2 & H3 & H4 & H5);
      repeat split; try reflexivity; eauto;
      rewrite (H1 _ eq_refl); apply Bool.eqb_reflx ].
Qed.

(** The route [GET /strings] on parameters that pass its checks: the
    records of the store that satisfy the filters asked for. *)
Lemma listStrings_valid (query : ListQuery.t) (stringStore : store) :
  validQuery query = true ->
  listStrings query stringStore
  = let data :=
      List.filter (satisfies (requestedFilters query))
                  (getAllString stringStore) in
    {| status := 200;
       content :=
         ListBody data (Z.of_nat (length data)) (requestedFilters query) |}.
Proof.
  unfold validQuery, validNumber. rewrite !andb_true_iff.
  intros (((Hmin & Hmax) & Hwc) & Hch).
  rewrite <- applyParsedFilters_filter.
  unfold listStrings, stepPalindrome, stepMinLength, stepMaxLength,
    stepWordCount, stepContains, applyParsedFilters, requestedFilters.
  destruct query as [qp qmin qmax qwc qch]; simpl in *.
  destruct qp as [vp|]; simpl;
    (destruct qmin as [vmin|]; simpl;
     [apply negb_true_iff in Hmin; rewrite Hmin; simpl|]);
    (destruct qmax as [vmax|]; simpl;
     [apply negb_true_iff in Hmax; rewrite Hmax; simpl|]);
    (destruct qwc as [vwc|]; simpl;
     [apply negb_true_iff in Hwc; rewrite Hwc; simpl|]);
    (destruct qch as [vch|]; simpl; [rewrite Hch; simpl|]);
    reflexivity.
Qed.

Lemma listStrings_invalid (query : ListQuery.t) (stringStore : store) :
  validQuery query = false ->
  status (listStrings query stringStore) = 400.
Proof.
  unfold validQuery, validNumber.
  unfold listStrings, stepPalindrome, stepMinLength, stepMaxLength,
    stepWordCount, stepContains.
  destruct query as [qp qmin qmax qwc qch]; simpl.
  destruct qp as [vp|]; simpl;
    (destruct qmin as [vmin|]; simpl;
     [destruct (isNaN (parseInt vmin)); simpl; [reflexivity|]|]);
    (destruct qmax as [vmax|]; simpl;
     [destruct (isNaN (parseInt vmax)); simpl; [reflexivity|]|]);
    (destruct qwc as [vwc|]; simpl;
     [destruct (isNaN (parseInt vwc)); simpl; [reflexivity|]|]);
    (destruct qch as [vch|]; simpl;
     [destruct (length vch =? 1)%nat; simpl; [|reflexivity]|]);
    discriminate.
Qed.

(** C5: the filters combine with AND.  The records kept are those of the
    list, in order, that satisfy every filter present (equality on
    [is_palindrome], [length >= min_length], [length <= max_length],
    equality on [word_count], [contains_character] occurring in the value);
    an absent key does not constrain; [GET /strings] answers with the
    records that satisfy the filters it was asked for; and on records of
    lengths 3, 5, 7 and 10 the filters [min_length = 5], [max_length = 9]
    keep the records of lengths 5 and 7. *)
Theorem C5_filters_and_semantics :
  (forall (f : Filters.t) (strings : list StringData.t) (s : StringData.t),
      s ∈ applyParsedFilters f strings <->
      s ∈ strings
      /\ (forall v, Filters.is_palindrome f = Some v -> palindromeOf s = v)
      /\ (forall v, Filters.min_length f = Some v ->
                    geb (lengthOf s) v = true)
      /\ (forall v, Filters.max_length f = Some v ->
                    leb (lengthOf s) v = true)
      /\ (forall v, Filters.word_count f = Some v ->
                    strictEq (wordCountOf s) v = true)
      /\ (forall v, Filters.contains_character f = Some v ->
                    includes (StringData.value s) v = true))
  /\ (forall (f : Filters.t) (strings : list StringData.t),
         applyParsedFilters f strings = List.filter (satisfies f) strings)
  /\ (forall strings : list StringData.t,
         applyParsedFilters Filters.empty strings = strings)
  /\ (forall (query : ListQuery.t) (stringStore : store),
         validQuery query = true ->
         let data := applyParsedFilters (requestedFilters query)
                                        (getAllString stringStore) in
         listStrings query stringStore
         = {| status := 200;
              content := ListBody data (Z.of_nat (length data))
                                  (requestedFilters query) |})
  /\ (forall r3 r5 r7 r10 : StringData.t,
         lengthOf r3 = Fin 3 -> lengthOf r5 = Fin 5 ->
         lengthOf r7 = Fin 7 -> lengthOf r10 = Fin 10 ->
         applyParsedFilters
           (Filters.set_max_length (Some (Fin 9))
              (Filters.set_min_length (Some (Fin 5)) Filters.empty))
           [r3; r5; r7; r10]
         = [r5; r7]).
Proof.
  split; [|split; [|split; [|split]]].
  - intros f strings s.
    rewrite applyParsedFilters_filter, list_elem_of_In, List.filter_In.
    rewrite <- list_elem_of_In, satisfies_spec. reflexivity.
  - exact applyParsedFilters_filter.
  - intros strings. reflexivity.
  - intros query stringStore Hvalid. cbv zeta.
    rewrite applyParsedFilters_filter.
    exact (listStrings_valid query stringStore Hvalid).
  - intros r3 r5 r7 r10 H3 H5 H7 H10.
    rewrite applyParsedFilters_filter. cbn [List.filter]. unfold satisfies.
    cbn [Filters.is_palindrome Filters.min_length Filters.max_length
         Filters.word_count Filters.contains_character
         Filters.set_max_length Filters.set_min_length Filters.empty].
    rewrite H3, H5, H7, H10. reflexivity.
Qed.

(** *** The matcher *)

Lemma stripPrefix_app (l s : jsstring) : stripPrefix l (l ++ s) = Some s.
Proof.
  induction l as [|x l IH]; simpl; [reflexivity|].
  rewrite N.eqb_refl. exact IH.
Qed.

Lemma stripPrefix_some (l s s' : jsstring) :
  stripPrefix l s = Some s' -> s = l ++ s'.
Proof.
  revert s. induction l as [|x l IH]; intros [|y s]; simpl;
    try discriminate; try (intros [= ->]; reflexivity).
  destruct (x =? y)%N eqn:E; [|discriminate].
  apply N.eqb_eq in E. subst y. intros H. rewrite (IH _ H). reflexivity.
Qed.

(** What a successful [plusFrom] read: a run of the class, then the rest of
    the pattern succeeded. *)
Lemma plusFrom_sound {A} (p : codeunit -> bool) (s : jsstring)
    (k : jsstring -> option A) (r : A) :
  plusFrom p s k = Some r ->
  exists w s', s = w ++ s' /\ Forall (fun x => p x = true) w /\ k s' = Some r.
Proof.
  induction s as [|c s IH]; simpl.
  - intros H. exists [], []. repeat split; [constructor|exact H].
  - destruct (p c) eqn:Hc.
    + destruct (plusFrom p s k) as [r'|] eqn:E.
      * intros [= ->]. destruct (IH eq_refl) as (w & s' & -> & Hw & Hk).
        exists (c :: w), s'. repeat split; [constructor; assumption|exact Hk].
      * intros H. exists [], (c :: s). repeat split; [constructor|exact H].
    + intros H. exists [], (c :: s). repeat split; [constructor|exact H].
Qed.

(** A greedy run stops where the class stops, if the rest of the pattern
    succeeds there. *)
Lemma plusFrom_greedy {A} (p : codeunit -> bool) (w post : jsstring)
    (k : jsstring -> option A) :
  Forall (fun x => p x = true) w ->
  (forall c post', post = c :: post' -> p c = false) ->
  is_Some (k post) ->
  plusFrom p (w ++ post) k = k post.
Proof.
  intros Hw Hpost [r Hk]. induction Hw as [|c w Hc _ IH]; simpl.
  - destruct post as [|c post']; [reflexivity|].
    simpl. rewrite (Hpost c post' eq_refl). reflexivity.
  - rewrite Hc, IH, Hk. reflexivity.
Qed.

Lemma run_sound (r : regex) :
  forall (s : jsstring) (cs : captures)
         (k : jsstring -> captures -> option captures) (m : captures),
    run r s cs k = Some m ->
    exists s' cs', Matches r s cs s' cs' /\ k s' cs' = Some m.
Proof.
  induction r as [l|p|p|r1 IH1 r2 IH2|r1 IH1 r2 IH2|r1 IH1|i r1 IH1|];
    intros s cs k m; simpl.
  - destruct (stripPrefix l s) as [s'|] eqn:E; [|discriminate].
    apply stripPrefix_some in E. subst s. intros H.
    exists s', cs. split; [constructor|exact H].
  - destruct s as [|c s]; [discriminate|].
    destruct (p c) eqn:Hc; [|discriminate]. intros H.
    exists s, cs. split; [constructor; exact Hc|exact H].
  - destruct s as [|c s]; [discriminate|].
    destruct (p c) eqn:Hc; [|discriminate]. intros H.
    apply plusFrom_sound in H as (w & s' & -> & Hw & Hk).
    exists s', cs. split; [constructor; assumption|exact Hk].
  - intros H. apply IH1 in H as (s1 & cs1 & M1 & H).
    apply IH2 in H as (s2 & cs2 & M2 & H).
    exists s2, cs2. split; [econstructor; eassumption|exact H].
  - destruct (run r1 s cs k) as [m'|] eqn:E.
    + intros [= ->]. apply IH1 in E as (s' & cs' & M & H).
      exists s', cs'. split; [apply MAltL, M|exact H].
    + intros H. apply IH2 in H as (s' & cs' & M & H).
      exists s', cs'. split; [apply MAltR, M|exact H].
  - destruct (run r1 s cs k) as [m'|] eqn:E.
    + intros [= ->]. apply IH1 in E as (s' & cs' & M & H).
      exists s', cs'. split; [apply MOptSome, M|exact H].
    + intros H. exists s, cs. split; [apply MOptNone|exact H].
  - intros H. apply IH1 in H as (s' & cs' & M & H).
    eexists _, _. split; [apply MGroup, M|exact H].
  - destruct s as [|c s]; [|discriminate]. intros H.
    exists [], cs. split; [constructor|exact H].
Qed.

Lemma matchAt_sound (n : nat) (r : regex) (s : jsstring) (m : captures) :
  matchAt n r s = Some m -> exists s', Matches r s (replicate n None) s' m.
Proof.
  unfold matchAt. intros H.
  apply run_sound in H as (s' & cs' & M & [= ->]). exists s'. exact M.
Qed.

(** A search that succeeds found a match at the head of some suffix. *)
Lemma search_sound (n : nat) (r : regex) (s : jsstring) (m : captures) :
  search n r s = Some m ->
  exists pre suf, s = pre ++ suf /\ matchAt n r suf = Some m.
Proof.
  induction s as [|c s IH]; simpl.
  - destruct (matchAt n r []) eqn:E; [|discriminate].
    intros [= ->]. exists [], []. split; [reflexivity|exact E].
  - destruct (matchAt n r (c :: s)) eqn:E.
    + intros [= ->]. exists [], (c :: s). split; [reflexivity|exact E].
    + intros H. destruct (IH H) as (pre & suf & -> & Hm).
      exists (c :: pre), suf. split; [reflexivity|exact Hm].
Qed.

Lemma search_head (n : nat) (r : regex) (s : jsstring) (m : captures) :
  matchAt n r s = Some m -> search n r s = Some m.
Proof. intros H. destruct s; simpl; rewrite H; reflexivity. Qed.

(** The search skips the start positions that have no match. *)
Lemma search_skip (n : nat) (r : regex) (pre rest : jsstring) :
  (forall i, (i < length pre)%nat ->
             matchAt n r (drop i (pre ++ rest)) = None) ->
  search n r (pre ++ rest) = search n r rest.
Proof.
  induction pre as [|c pre IH]; intros H; [reflexivity|].
  simpl. pose proof (H 0%nat) as H0. simpl in H0.
  rewrite H0 by lia. apply IH.
  intros i Hi. apply (H (S i)). simpl. lia.
Qed.

(** *** The translator: which rule touches which key *)

Lemma rulePalindrome_frame lq f :
  Filters.min_length (rulePalindrome lq f) = Filters.min_length f
  /\ Filters.max_length (rulePalindrome lq f) = Filters.max_length f
  /\ Filters.word_count (rulePalindrome lq f) = Filters.word_count f
  /\ Filters.contains_character (rulePalindrome lq f)
     = Filters.contains_character f.
Proof. unfold rulePalindrome. case_match; repeat split. Qed.

Lemma ruleSingleWord_frame lq f :
  Filters.is_palindrome (ruleSingleWord lq f) = Filters.is_palindrome f
  /\ Filters.min_length (ruleSingleWord lq f) = Filters.min_length f
  /\ Filters.max_length (ruleSingleWord lq f) = Filters.max_length f
  /\ Filters.contains_character (ruleSingleWord lq f)
     = Filters.contains_character f.
Proof. unfold ruleSingleWord. case_match; repeat split. Qed.

Lemma ruleTwoWords_frame lq f :
  Filters.is_palindrome (ruleTwoWords lq f) = Filters.is_palindrome f
  /\ Filters.min_length (ruleTwoWords lq f) = Filters.min_length f
  /\ Filters.max_length (ruleTwoWords lq f) = Filters.max_length f
  /\ Filters.contains_character (ruleTwoWords lq f)
     = Filters.contains_character f.
Proof. unfold ruleTwoWords. case_match; repeat split. Qed.

Lemma ruleLongerThan_frame lq f :
  Filters.is_palindrome (ruleLongerThan lq f) = Filters.is_palindrome f
  /\ Filters.max_length (ruleLongerThan lq f) = Filters.max_length f
  /\ Filters.word_count (ruleLongerThan lq f) = Filters.word_count f
  /\ Filters.contains_character (ruleLongerThan lq f)
     = Filters.contains_character f.
Proof. unfold ruleLongerThan. case_match; repeat split. Qed.

Lemma ruleShorterThan_frame lq f :
  Filters.is_palindrome (ruleShorterThan lq f) = Filters.is_palindrome f
  /\ Filters.min_length (ruleShorterThan lq f) = Filters.min_length f
  /\ Filters.word_count (ruleShorterThan lq f) = Filters.word_count f
  /\ Filters.contains_character (ruleShorterThan lq f)
     = Filters.contains_character f.
Proof. unfold ruleShorterThan. case_match; repeat split. Qed.

Lemma ruleAtLeast_frame lq f :
  Filters.is_palindrome (ruleAtLeast lq f) = Filters.is_palindrome f
  /\ Filters.max_length (ruleAtLeast lq f) = Filters.max_length f
  /\ Filters.word_count (ruleAtLeast lq f) = Filters.word_count f
  /\ Filters.contains_character (ruleAtLeast lq f)
     = Filters.contains_character f.
Proof. unfold ruleAtLeast. case_match; repeat split. Qed.

Lemma ruleLetter_frame lq f :
  Filters.is_palindrome (ruleLetter lq f) = Filters.is_palindrome f
  /\ Filters.min_length (ruleLetter lq f) = Filters.min_length f
  /\ Filters.max_length (ruleLetter lq f) = Filters.max_length f
  /\ Filters.word_count (ruleLetter lq f) = Filters.word_count f.
Proof. unfold ruleLetter. case_match; repeat split. Qed.

Lemma ruleContains_frame lq f :
  Filters.is_palindrome (ruleContains lq f) = Filters.is_palindrome f
  /\ Filters.min_length (ruleContains lq f) = Filters.min_length f
  /\ Filters.max_length (ruleContains lq f) = Filters.max_length f
  /\ Filters.word_count (ruleContains lq f) = Filters.word_count f.
Proof. unfold ruleContains. case_match; repeat split. Qed.

(** Pattern 9 only rewrites [contains_character]. *)
Lemma vowel_loop_spec lq (words : list jsstring) (index : nat) (f : Filters.t) :
  forEachFrom (vowelStep lq) index words f
  = Filters.set_contains_character
      (forEachFrom
         (fun acc word index =>
            if includes lq (word ++ lit " vowel")
            then vowels !! index else acc)
         index words (Filters.contains_character f))
      f.
Proof.
  revert index f. induction words as [|w words IH]; intros index f; simpl.
  - destruct f; reflexivity.
  - rewrite IH. unfold vowelStep.
    destruct (includes lq (w ++ lit " vowel")); reflexivity.
Qed.

Lemma ruleVowel_spec lq f :
  ruleVowel lq f
  = Filters.set_contains_character
      (vowelChoice lq (Filters.contains_character f)) f.
Proof. apply vowel_loop_spec. Qed.

(** The five keys of the result, rule by rule; a later rule on the same
    key wins. *)
Lemma translate_is_palindrome lq :
  Filters.is_palindrome (translateLower lq)
  = if includes lq (lit "palindrom") then Some true else None.
Proof.
  unfold translateLower. rewrite ruleVowel_spec.
  cbn [Filters.set_contains_character Filters.is_palindrome].
  rewrite (proj1 (ruleContains_frame _ _)), (proj1 (ruleLetter_frame _ _)),
    (proj1 (ruleAtLeast_frame _ _)), (proj1 (ruleShorterThan_frame _ _)),
    (proj1 (ruleLongerThan_frame _ _)), (proj1 (ruleTwoWords_frame _ _)),
    (proj1 (ruleSingleWord_frame _ _)).
  unfold rulePalindrome. case_match; reflexivity.
Qed.

Lemma translate_word_count lq :
  Filters.word_count (translateLower lq)
  = if includes lq (lit "two word") || includes lq (lit "double word")
    then Some (Fin 2)
    else if includes lq (lit "single word") || includes lq (lit "one word")
         then Some (Fin 1) else None.
Proof.
  unfold translateLower. rewrite ruleVowel_spec.
  cbn [Filters.set_contains_character Filters.word_count].
  rewrite (proj2 (proj2 (proj2 (ruleContains_frame _ _)))),
    (proj2 (proj2 (proj2 (ruleLetter_frame _ _)))),
    (proj1 (proj2 (proj2 (ruleAtLeast_frame _ _)))),
    (proj1 (proj2 (proj2 (ruleShorterThan_frame _ _)))),
    (proj1 (proj2 (proj2 (ruleLongerThan_frame _ _)))).
  unfold ruleTwoWords, ruleSingleWord.
  repeat case_match; try reflexivity.
  exact (proj1 (proj2 (proj2 (rulePalindrome_frame _ _)))).
Qed.

Lemma translate_min_length lq :
  Filters.min_length (translateLower lq)
  = match search 1 atLeastRe lq with
    | Some m => Some (parseIntOpt (group m 0))
    | None =>
        match search 2 longerThanRe lq with
        | Some m =>
            Some (add (parseIntOpt (orElse (group m 0) (group m 1))) (Fin 1))
        | None => None
        end
    end.
Proof.
  unfold translateLower. rewrite ruleVowel_spec.
  cbn [Filters.set_contains_character Filters.min_length].
  rewrite (proj1 (proj2 (ruleContains_frame _ _))),
    (proj1 (proj2 (ruleLetter_frame _ _))).
  unfold ruleAtLeast. case_match; [reflexivity|].
  rewrite (proj1 (proj2 (ruleShorterThan_frame _ _))).
  unfold ruleLongerThan. case_match; [reflexivity|].
  rewrite (proj1 (proj2 (ruleTwoWords_frame _ _))),
    (proj1 (proj2 (ruleSingleWord_frame _ _))).
  exact (proj1 (rulePalindrome_frame _ _)).
Qed.

Lemma translate_max_length lq :
  Filters.max_length (translateLower lq)
  = match search 2 shorterThanRe lq with
    | Some m =>
        Some (sub (parseIntOpt (orElse (group m 0) (group m 1))) (Fin 1))
    | None => None
    end.
Proof.
  unfold translateLower. rewrite ruleVowel_spec.
  cbn [Filters.set_contains_character Filters.max_length].
  rewrite (proj1 (proj2 (proj2 (ruleContains_frame _ _)))),
    (proj1 (proj2 (proj2 (ruleLetter_frame _ _)))),
    (proj1 (proj2 (ruleAtLeast_frame _ _))).
  unfold ruleShorterThan. case_match; [reflexivity|].
  rewrite (proj1 (proj2 (ruleLongerThan_frame _ _))),
    (proj1 (proj2 (proj2 (ruleTwoWords_frame _ _)))),
    (proj1 (proj2 (proj2 (ruleSingleWord_frame _ _)))).
  exact (proj1 (proj2 (rulePalindrome_frame _ _))).
Qed.

Lemma translate_contains_character lq :
  Filters.contains_character (translateLower lq)
  = vowelChoice lq
      match search 1 containsRe lq with
      | Some m => group m 0
      | None =>
          match search 2 letterRe lq with
          | Some m => orElse (group m 0) (group m 1)
          | None => None
          end
      end.
Proof.
  unfold translateLower. rewrite ruleVowel_spec.
  cbn [Filters.set_contains_character Filters.contains_character].
  f_equal. unfold ruleContains. case_match; [reflexivity|].
  unfold ruleLetter. case_match; [reflexivity|].
  rewrite (proj2 (proj2 (proj2 (ruleAtLeast_frame _ _)))),
    (proj2 (proj2 (proj2 (ruleShorterThan_frame _ _)))),
    (proj2 (proj2 (proj2 (ruleLongerThan_frame _ _)))),
    (proj2 (proj2 (proj2 (ruleTwoWords_frame _ _)))),
    (proj2 (proj2 (proj2 (ruleSingleWord_frame _ _)))).
  exact (proj2 (proj2 (proj2 (rulePalindrome_frame _ _)))).
Qed.

(** *** What the patterns capture *)

Lemma take_consumed (w s' : jsstring) :
  take (length (w ++ s') - length s') (w ++ s') = w.
Proof. rewrite length_app, Nat.add_sub. apply take_app_length. Qed.

Lemma take_one (c : codeunit) (s' : jsstring) :
  take (length (c :: s') - length s') (c :: s') = [c].
Proof. exact (take_consumed [c] s'). Qed.

(** A match of pattern 8 captures one letter. *)
Lemma containsRe_capture (s : jsstring) (m : captures) :
  matchAt 1 containsRe s = Some m ->
  exists c, isLowerLetter c = true /\ group m 0 = Some [c].
Proof.
  intros H. apply matchAt_sound in H as [s' M].
  unfold containsRe, cat, ws, letter in M. inv_matches.
  all: eexists; split; [eassumption|];
    unfold group, setCapture; simpl; reflexivity.
Qed.

(** A match of pattern 7 captures one letter in one of its two groups. *)
Lemma letterRe_capture (s : jsstring) (m : captures) :
  matchAt 2 letterRe s = Some m ->
  exists c, isLowerLetter c = true
            /\ orElse (group m 0) (group m 1) = Some [c].
Proof.
  intros H. apply matchAt_sound in H as [s' M].
  unfold letterRe, cat, ws, letter in M. inv_matches.
  all: eexists; split; [eassumption|];
    rewrite take_one; reflexivity.
Qed.

Lemma search_containsRe_capture (lq : jsstring) (m : captures) :
  search 1 containsRe lq = Some m ->
  exists c, isLowerLetter c = true /\ group m 0 = Some [c].
Proof.
  intros H. apply search_sound in H as (pre & suf & _ & H).
  exact (containsRe_capture suf m H).
Qed.

Lemma search_letterRe_capture (lq : jsstring) (m : captures) :
  search 2 letterRe lq = Some m ->
  exists c, isLowerLetter c = true
            /\ orElse (group m 0) (group m 1) = Some [c].
Proof.
  intros H. apply search_sound in H as (pre & suf & _ & H).
  exact (letterRe_capture suf m H).
Qed.

(** Pattern 9 when no ordinal phrase occurs, and when it leaves nothing. *)
Lemma vowelChoice_absent (lq : jsstring) (before : option jsstring) :
  Forall (fun word => includes lq (word ++ lit " vowel") = false) vowelWords ->
  vowelChoice lq before = before.
Proof.
  unfold vowelChoice, vowelWords. intros H.
  repeat (apply Forall_cons in H as [? H]). cbn [forEachFrom].
  repeat match goal with E : includes _ _ = false |- _ => rewrite E; clear E end.
  reflexivity.
Qed.

Lemma vowelChoice_none (lq : jsstring) (before : option jsstring) :
  vowelChoice lq before = None ->
  before = None
  /\ Forall (fun word => includes lq (word ++ lit " vowel") = false)
            vowelWords.
Proof.
  unfold vowelChoice, vowelWords. cbn [forEachFrom].
  destruct (includes lq (lit "fifth" ++ lit " vowel")) eqn:E5;
    [discriminate|].
  destruct (includes lq (lit "fourth" ++ lit " vowel")) eqn:E4;
    [discriminate|].
  destruct (includes lq (lit "third" ++ lit " vowel")) eqn:E3;
    [discriminate|].
  destruct (includes lq (lit "second" ++ lit " vowel")) eqn:E2;
    [discriminate|].
  destruct (includes lq (lit "first" ++ lit " vowel")) eqn:E1;
    [discriminate|].
  intros ->. split; [reflexivity|]. repeat constructor; assumption.
Qed.

(** *** The translator: no rule matches *)

Lemma translate_no_match (lq : jsstring) :
  noRuleMatches lq -> translateLower lq = Filters.empty.
Proof.
  intros (H1 & H2 & H3 & H4 & H5 & H6 & H7 & H8 & H9 & H10 & H11).
  unfold translateLower. rewrite ruleVowel_spec.
  unfold ruleContains, ruleLetter, ruleAtLeast, ruleShorterThan,
    ruleLongerThan, ruleTwoWords, ruleSingleWord, rulePalindrome.
  rewrite H1, H2, H3, H4, H5, H6, H7, H8, H9, H10. simpl.
  rewrite (vowelChoice_absent lq None H11). reflexivity.
Qed.

Lemma present_nonneg {A} (o : option A) : 0 <= Filters.present o.
Proof. destruct o; simpl; lia. Qed.

Lemma present_zero {A} (o : option A) : Filters.present o = 0 -> o = None.
Proof. destruct o; simpl; [discriminate|reflexivity]. Qed.

Lemma translate_empty_no_match (lq : jsstring) :
  Filters.keyCount (translateLower lq) = 0 -> noRuleMatches lq.
Proof.
  unfold Filters.keyCount. intros H.
  pose proof (present_nonneg (Filters.is_palindrome (translateLower lq))).
  pose proof (present_nonneg (Filters.min_length (translateLower lq))).
  pose proof (present_nonneg (Filters.max_length (translateLower lq))).
  pose proof (present_nonneg (Filters.word_count (translateLower lq))).
  pose proof (present_nonneg (Filters.contains_character (translateLower lq))).
  assert (Filters.is_palindrome (translateLower lq) = None) as Hp
      by (apply present_zero; lia).
  assert (Filters.min_length (translateLower lq) = None) as Hmin
      by (apply present_zero; lia).
  assert (Filters.max_length (translateLower lq) = None) as Hmax
      by (apply present_zero; lia).
  assert (Filters.word_count (translateLower lq) = None) as Hwc
      by (apply present_zero; lia).
  assert (Filters.contains_character (translateLower lq) = None) as Hcc
      by (apply present_zero; lia).
  rewrite translate_is_palindrome in Hp.
  rewrite translate_min_length in Hmin.
  rewrite translate_max_length in Hmax.
  rewrite translate_word_count in Hwc.
  rewrite translate_contains_character in Hcc.
  apply vowelChoice_none in Hcc as [Hbase Hvowel].
  unfold noRuleMatches.
  destruct (includes lq (lit "palindrom")); [discriminate|].
  destruct (includes lq (lit "two word")); [discriminate|].
  destruct (includes lq (lit "double word")); [discriminate|].
  destruct (includes lq (lit "single word")); [discriminate|].
  destruct (includes lq (lit "one word")); [discriminate|].
  destruct (search 1 atLeastRe lq); [discriminate|].
  destruct (search 2 longerThanRe lq); [discriminate|].
  destruct (search 2 shorterThanRe lq); [discriminate|].
  destruct (search 1 containsRe lq) as [m8|] eqn:E8.
  { destruct (search_containsRe_capture lq m8 E8) as (c & _ & Hc).
    congruence. }
  destruct (search 2 letterRe lq) as [m7|] eqn:E7.
  { destruct (search_letterRe_capture lq m7 E7) as (c & _ & Hc).
    congruence. }
  repeat split; assumption.
Qed.

Lemma empty_keyCount (f : Filters.t) :
  f = Filters.empty -> Filters.keyCount f = 0.
Proof. intros ->. reflexivity. Qed.

(** C7: the translator returns the empty filter object exactly when no rule
    matches; the natural-language route then answers 400 with the
    unparseable-query error, whereas a query on which some rule matches is
    answered 200 with the records its filters keep, also when they keep
    none (a missing or empty query is answered 400 before translation).  ["xyz"] is of the first kind; ["palindromic strings"] on an empty
    store is of the second. *)
Theorem C7_unparseable_versus_empty_result :
  (forall lq : jsstring,
      noRuleMatches lq <-> translateLower lq = Filters.empty)
  /\ (forall (c : codeunit) (query : jsstring) (stringStore : store),
         noRuleMatches (toLowerCase (c :: query)) ->
         filterByNaturalLanguage (Some (c :: query)) stringStore
         = {| status := 400;
              content :=
                UnparsedBody (lit "Unable to parse natural language query")
                             (c :: query) |})
  /\ (forall (c : codeunit) (query : jsstring) (stringStore : store),
         ~ noRuleMatches (toLowerCase (c :: query)) ->
         let parsedFilters := parseNaturalLanguageQuery (c :: query) in
         let data :=
           applyParsedFilters parsedFilters (getAllString stringStore) in
         filterByNaturalLanguage (Some (c :: query)) stringStore
         = {| status := 200;
              content :=
                InterpretedBody data (Z.of_nat (length data))
                                (c :: query) parsedFilters |})
  /\ (forall stringStore : store,
         status (filterByNaturalLanguage None stringStore) = 400
         /\ status (filterByNaturalLanguage (Some []) stringStore) = 400)
  /\ parseNaturalLanguageQuery (lit "xyz") = Filters.empty
  /\ (forall stringStore : store,
         status (filterByNaturalLanguage (Some (lit "xyz")) stringStore)
         = 400)
  /\ filterByNaturalLanguage (Some (lit "palindromic strings")) []
     = {| status := 200;
          content :=
            InterpretedBody [] 0 (lit "palindromic strings")
              (Filters.set_is_palindrome (Some true) Filters.empty) |}.
Proof.
  assert (forall lq, noRuleMatches lq <-> translateLower lq = Filters.empty)
    as Hiff.
  { intros lq. split; [apply translate_no_match|].
    intros H. apply translate_empty_no_match, empty_keyCount, H. }
  assert (parseNaturalLanguageQuery (lit "xyz") = Filters.empty) as Hxyz.
  { unfold parseNaturalLanguageQuery.
    rewrite toLowerCase_basic by literal_forall. vm_compute. reflexivity. }
  split; [exact Hiff|].
  split; [|split; [|split; [|split; [exact Hxyz|split]]]].
  - intros c query stringStore Hno.
    unfold filterByNaturalLanguage, parseNaturalLanguageQuery.
    rewrite (translate_no_match _ Hno). reflexivity.
  - intros c query stringStore Hsome. cbv zeta.
    unfold filterByNaturalLanguage.
    destruct (Filters.keyCount (parseNaturalLanguageQuery (c :: query)) =? 0)
      eqn:E; [|reflexivity].
    exfalso. apply Hsome, translate_empty_no_match, Z.eqb_eq, E.
  - intros stringStore. split; reflexivity.
  - intros stringStore.
    change (lit "xyz") with ([120; 121; 122]%N : jsstring) in *.
    unfold filterByNaturalLanguage. rewrite Hxyz. reflexivity.
  - change (lit "palindromic strings")
      with (112%N :: List.tl (lit "palindromic strings")).
    unfold filterByNaturalLanguage, parseNaturalLanguageQuery.
    rewrite toLowerCase_basic by literal_forall. vm_compute. reflexivity.
Qed.

(** C2, as the code has it: rule 8 is applied whenever its pattern matches,
    whether or not rule 7 matched before.  On a query where both match, the
    single letter captured by rule 8 is the one in [contains_character]
    after rule 8, and in the result unless an ordinal vowel phrase (rule 9)
    replaces it. *)
Theorem C2_rule8_overwrites_rule7 (query : jsstring) (m7 m8 : captures) :
  let lowerQuery := toLowerCase query in
  search 2 letterRe lowerQuery = Some m7 ->
  search 1 containsRe lowerQuery = Some m8 ->
  exists c,
    isLowerLetter c = true
    /\ group m8 0 = Some [c]
    /\ (forall filters,
           Filters.contains_character
             (ruleContains lowerQuery (ruleLetter lowerQuery filters))
           = Some [c])
    /\ Filters.contains_character (parseNaturalLanguageQuery query)
       = vowelChoice lowerQuery (Some [c])
    /\ (Forall (fun word =>
                  includes lowerQuery (word ++ lit " vowel") = false)
               vowelWords ->
        Filters.contains_character (parseNaturalLanguageQuery query)
        = Some [c]).
Proof.
  intros lowerQuery H7 H8.
  destruct (search_containsRe_capture lowerQuery m8 H8) as (c & Hc & Hg).
  assert (Filters.contains_character (parseNaturalLanguageQuery query)
          = vowelChoice lowerQuery (Some [c])) as Hfinal.
  { unfold parseNaturalLanguageQuery. fold lowerQuery.
    rewrite translate_contains_character, H8, Hg. reflexivity. }
  exists c. split; [exact Hc|]. split; [exact Hg|]. split; [|split].
  - intros filters. unfold ruleContains. rewrite H8. exact Hg.
  - exact Hfinal.
  - intros Hno. rewrite Hfinal. apply vowelChoice_absent, Hno.
Qed.

(** *** Numerals *)

Lemma digit_range (c : codeunit) :
  isDigit c = true <-> (48 <= c <= 57)%N.
Proof.
  unfold isDigit. rewrite andb_true_iff, !N.leb_le. reflexivity.
Qed.

Lemma digit_not_white (c : codeunit) :
  isDigit c = true -> isWhiteSpace c = false.
Proof.
  intros H. apply digit_range in H. unfold isWhiteSpace.
  repeat match goal with
         | |- context [(?a <=? ?b)%N] =>
             destruct (N.leb_spec a b); try lia
         | |- context [(?a =? ?b)%N] =>
             destruct (N.eqb_spec a b); try lia
         end;
    reflexivity.
Qed.

Lemma digitValue_digit (c : codeunit) :
  isDigit c = true -> digitValue 10 c = Some (Z.of_N c - 48).
Proof.
  intros H. apply digit_range in H. unfold digitValue.
  assert ((48 <=? Z.of_N c) && (Z.of_N c <=? 57) = true) as ->.
  { apply andb_true_iff. split; apply Z.leb_le; lia. }
  reflexivity.
Qed.

Lemma readDigits_digits (ds : jsstring) :
  Forall (fun c => isDigit c = true) ds ->
  forall (acc : Z) (seen : bool),
    seen = true \/ ds <> [] ->
    readDigits 10 acc seen ds
    = Some (fold_left (fun acc c => acc * 10 + (Z.of_N c - 48)) ds acc).
Proof.
  induction 1 as [|c ds Hc _ IH]; intros acc seen Hseen; simpl.
  - destruct Hseen as [->|Hne]; [reflexivity|congruence].
  - rewrite (digitValue_digit c Hc). apply IH. left. reflexivity.
Qed.

Lemma digits_value_nonneg (ds : jsstring) :
  Forall (fun c => isDigit c = true) ds ->
  forall acc, 0 <= acc ->
    0 <= fold_left (fun acc c => acc * 10 + (Z.of_N c - 48)) ds acc.
Proof.
  induction 1 as [|c ds Hc _ IH]; intros acc Hacc; simpl; [exact Hacc|].
  apply IH. apply digit_range in Hc. lia.
Qed.

Lemma numeral_nonneg (ds : jsstring) (n : Z) : isNumeral ds n -> 0 <= n.
Proof.
  intros (_ & Hd & <-). apply digits_value_nonneg; [exact Hd|lia].
Qed.

(** [parseInt] on a numeral reads all of it, in radix 10. *)
Lemma parseInt_numeral (ds : jsstring) (n : Z) :
  isNumeral ds n -> parseInt ds = ofInteger n.
Proof.
  intros (Hne & Hd & Hv). unfold parseInt.
  destruct ds as [|c ds]; [congruence|].
  pose proof Hd as Hd'. apply Forall_cons in Hd' as [Hc Hds].
  cbn [trimStart]. rewrite (digit_not_white c Hc).
  pose proof (proj1 (digit_range c) Hc) as Hr.
  assert ((c =? 45)%N = false) as -> by (apply N.eqb_neq; lia).
  assert ((c =? 43)%N = false) as -> by (apply N.eqb_neq; lia).
  assert (readDigits 10 0 false (c :: ds) = Some n) as Hread.
  { rewrite (readDigits_digits (c :: ds) Hd 0 false) by (right; congruence).
    unfold decimalValue in Hv. rewrite Hv. reflexivity. }
  destruct ds as [|x ds'].
  - cbv beta iota zeta. rewrite Hread. reflexivity.
  - apply Forall_cons in Hds as [Hx _]. apply digit_range in Hx.
    cbv beta iota.
    assert ((x =? 120)%N = false) as -> by (apply N.eqb_neq; lia).
    assert ((x =? 88)%N = false) as -> by (apply N.eqb_neq; lia).
    rewrite andb_false_r. cbv beta iota zeta. rewrite Hread. reflexivity.
Qed.

(** Integers up to [2^53] in magnitude are numbers. *)
Lemma ofInteger_exact (z : Z) :
  - 2 ^ 53 <= z <= 2 ^ 53 -> ofInteger z = Fin z.
Proof.
  intros H. unfold ofInteger, roundNat.
  destruct (Z.abs z <? 2 ^ 53) eqn:E.
  - f_equal. destruct z; simpl; lia.
  - apply Z.ltb_ge in E.
    assert (z = 2 ^ 53 \/ z = - 2 ^ 53) as [-> | ->] by lia;
      vm_compute; reflexivity.
Qed.

Lemma decimalValue_snoc (ds : jsstring) (d : codeunit) :
  decimalValue (ds ++ [d]) = decimalValue ds * 10 + (Z.of_N d - 48).
Proof. unfold decimalValue. rewrite fold_left_app. reflexivity. Qed.

(** Every natural number has a numeral. *)
Lemma numeral_exists (n : Z) : 0 <= n -> exists ds, isNumeral ds n.
Proof.
  revert n. apply (Zlt_0_ind (fun n => exists ds, isNumeral ds n)).
  intros n IH Hn.
  destruct (Z_lt_dec n 10) as [Hsmall|Hbig].
  - exists [Z.to_N (48 + n)]. split; [congruence|]. split.
    + constructor; [|constructor]. apply digit_range. lia.
    + change (decimalValue ([] ++ [Z.to_N (48 + n)]) = n).
      rewrite decimalValue_snoc, Z2N.id by lia.
      unfold decimalValue. simpl. lia.
  - destruct (IH (n / 10)) as (ds & Hne & Hd & Hv).
    { split; [apply Z.div_pos; lia|apply Z.div_lt; lia]. }
    pose proof (Z.mod_pos_bound n 10 ltac:(lia)) as Hm.
    exists (ds ++ [Z.to_N (48 + n mod 10)]). split; [|split].
    + destruct ds; discriminate.
    + apply Forall_app. split; [exact Hd|].
      constructor; [|constructor]. apply digit_range. lia.
    + rewrite decimalValue_snoc, Hv, Z2N.id by lia.
      pose proof (Z.div_mod n 10 ltac:(lia)). lia.
Qed.

(** *** Patterns 4 and 5 on their text *)

Lemma run_lit (l s : jsstring) (cs : captures)
    (k : jsstring -> captures -> option captures) :
  run (Lit l) (l ++ s) cs k = k s cs.
Proof. simpl. rewrite stripPrefix_app. reflexivity. Qed.

(** A group [(\d+)] on a numeral followed by something that is not a digit
    captures the numeral, when the rest of the pattern then succeeds. *)
Lemma run_group_digits (i : nat) (ds post : jsstring) (cs : captures)
    (k : jsstring -> captures -> option captures) :
  ds <> [] ->
  Forall (fun c => isDigit c = true) ds ->
  endsNumber post ->
  is_Some (k post (setCapture i ds cs)) ->
  run (Group i digits) (ds ++ post) cs k = k post (setCapture i ds cs).
Proof.
  intros Hne Hd Hpost Hk.
  destruct ds as [|d ds]; [congruence|].
  apply Forall_cons in Hd as [Hd Hds].
  assert (take (length (d :: ds ++ post) - length post) (d :: ds ++ post)
          = d :: ds) as Htake by exact (take_consumed (d :: ds) post).
  unfold digits. cbn [run app]. rewrite Hd.
  rewrite plusFrom_greedy; [|exact Hds|exact Hpost|].
  - rewrite Htake. reflexivity.
  - rewrite Htake. exact Hk.
Qed.

Lemma space_ends_number (post : jsstring) : endsNumber (32%N :: post).
Proof. intros c post' [= <- _]. reflexivity. Qed.

Lemma run_seq (r1 r2 : regex) (s : jsstring) (cs : captures)
    (k : jsstring -> captures -> option captures) :
  run (Seq r1 r2) s cs k = run r1 s cs (fun s' cs' => run r2 s' cs' k).
Proof. reflexivity. Qed.

Lemma run_alt (r1 r2 : regex) (s : jsstring) (cs : captures)
    (k : jsstring -> captures -> option captures) :
  run (Alt r1 r2) s cs k
  = match run r1 s cs k with
    | Some m => Some m
    | None => run r2 s cs k
    end.
Proof. reflexivity. Qed.

(** [prefix (\d+)] at the head of [prefix ++ ds ++ post]. *)
Lemma numbered_first_at (prefix : jsstring) (other : regex)
    (ds post : jsstring) :
  ds <> [] -> Forall (fun c => isDigit c = true) ds -> endsNumber post ->
  matchAt 2 (Alt (Seq (Lit prefix) (Group 0 digits)) other)
            (prefix ++ ds ++ post)
  = Some [Some ds; None].
Proof.
  intros Hne Hd Hpost. unfold matchAt.
  rewrite run_alt, run_seq, run_lit.
  rewrite run_group_digits; try assumption; [reflexivity|].
  eexists; reflexivity.
Qed.

(** [prefix (\d+) character] at the head of its text, when the first
    alternative of the pattern does not start there. *)
Lemma numbered_second_at (first : regex) (prefix : jsstring)
    (ds post : jsstring) :
  ds <> [] -> Forall (fun c => isDigit c = true) ds ->
  run first (prefix ++ ds ++ lit " character" ++ post)
      (replicate 2 None) (fun _ cs => Some cs) = None ->
  matchAt 2 (Alt first
                 (cat [Lit prefix; Group 1 digits; Lit (lit " character")]))
            (prefix ++ ds ++ lit " character" ++ post)
  = Some [None; Some ds].
Proof.
  intros Hne Hd Hfirst. unfold matchAt, cat.
  rewrite run_alt, Hfirst, run_seq, run_lit. cbv beta.
  rewrite run_seq, run_group_digits; try assumption.
  - rewrite run_lit. reflexivity.
  - apply space_ends_number.
  - rewrite run_lit. eexists; reflexivity.
Qed.

Lemma longerThan_at (ds post : jsstring) :
  ds <> [] -> Forall (fun c => isDigit c = true) ds -> endsNumber post ->
  matchAt 2 longerThanRe (lit "longer than " ++ ds ++ post)
  = Some [Some ds; None].
Proof. apply numbered_first_at. Qed.

Lemma moreThan_at (ds post : jsstring) :
  ds <> [] -> Forall (fun c => isDigit c = true) ds ->
  matchAt 2 longerThanRe
    (lit "more than " ++ ds ++ lit " character" ++ post)
  = Some [None; Some ds].
Proof.
  intros Hne Hd. apply numbered_second_at; try assumption. reflexivity.
Qed.

Lemma shorterThan_at (ds post : jsstring) :
  ds <> [] -> Forall (fun c => isDigit c = true) ds -> endsNumber post ->
  matchAt 2 shorterThanRe (lit "shorter than " ++ ds ++ post)
  = Some [Some ds; None].
Proof. apply numbered_first_at. Qed.

Lemma lessThan_at (ds post : jsstring) :
  ds <> [] -> Forall (fun c => isDigit c = true) ds ->
  matchAt 2 shorterThanRe
    (lit "less than " ++ ds ++ lit " character" ++ post)
  = Some [None; Some ds].
Proof.
  intros Hne Hd. apply numbered_second_at; try assumption. reflexivity.
Qed.

Lemma longest_match_first (n : nat) (r : regex) (pre rest : jsstring)
    (m : captures) :
  noEarlierMatch n r pre rest ->
  matchAt n r rest = Some m ->
  search n r (pre ++ rest) = Some m.
Proof.
  intros Hpre Hm. rewrite (search_skip n r pre rest Hpre).
  apply search_head, Hm.
Qed.

Lemma numeral_capture (ds : jsstring) (n : Z) :
  isNumeral ds n ->
  orElse (Some ds) None = Some ds /\ orElse None (Some ds) = Some ds.
Proof. intros (Hne & _). destruct ds; [congruence|]. split; reflexivity. Qed.

Lemma min_length_of_numeral (lq : jsstring) (m : captures) (ds : jsstring)
    (n : Z) :
  search 2 longerThanRe lq = Some m ->
  orElse (group m 0) (group m 1) = Some ds ->
  isNumeral ds n ->
  search 1 atLeastRe lq = None ->
  Filters.min_length (translateLower lq)
  = Some (add (ofInteger n) (Fin 1)).
Proof.
  intros Hs Hg Hnum Hat.
  rewrite translate_min_length, Hat, Hs, Hg. cbn [parseIntOpt].
  rewrite (parseInt_numeral ds n Hnum). reflexivity.
Qed.

Lemma max_length_of_numeral (lq : jsstring) (m : captures) (ds : jsstring)
    (n : Z) :
  search 2 shorterThanRe lq = Some m ->
  orElse (group m 0) (group m 1) = Some ds ->
  isNumeral ds n ->
  Filters.max_length (translateLower lq)
  = Some (sub (ofInteger n) (Fin 1)).
Proof.
  intros Hs Hg Hnum.
  rewrite translate_max_length, Hs, Hg. cbn [parseIntOpt].
  rewrite (parseInt_numeral ds n Hnum). reflexivity.
Qed.

(** In the range where integers are numbers, adding and subtracting one is
    exact. *)
Lemma successor_exact (n : Z) :
  0 <= n < 2 ^ 53 ->
  add (ofInteger n) (Fin 1) = Fin (n + 1)
  /\ sub (ofInteger n) (Fin 1) = Fin (n - 1).
Proof.
  intros H. rewrite (ofInteger_exact n) by lia. cbn [add sub].
  rewrite !ofInteger_exact by lia. split; reflexivity.
Qed.

(** C6, as the code has it.  Every natural number has a numeral.  For a
    numeral of [n], when the leftmost match of the pattern of rule 4 is
    ["longer than n"] (or ["more than n character"]) and rule 6 does not
    match, the result has [min_length = parseInt(n) + 1], computed on
    numbers, which is [n + 1] when [n < 2^53]; when the leftmost match of
    the pattern of rule 5 is ["shorter than n"] (or ["less than n
    character"]) the result has [max_length = parseInt(n) - 1], which is
    [n - 1] when [n < 2^53]; ["strings longer than 10 characters"]
    translates to [min_length = 11] and nothing else. *)
Theorem C6_length_bounds_of_patterns :
  (forall n : Z, 0 <= n -> exists ds, isNumeral ds n)
  /\ (forall (query pre ds post : jsstring) (n : Z),
         isNumeral ds n -> endsNumber post ->
         toLowerCase query = pre ++ lit "longer than " ++ ds ++ post ->
         noEarlierMatch 2 longerThanRe pre (lit "longer than " ++ ds ++ post) ->
         search 1 atLeastRe (toLowerCase query) = None ->
         Filters.min_length (parseNaturalLanguageQuery query)
         = Some (add (ofInteger n) (Fin 1))
         /\ (n < 2 ^ 53 ->
             Filters.min_length (parseNaturalLanguageQuery query)
             = Some (Fin (n + 1))))
  /\ (forall (query pre ds post : jsstring) (n : Z),
         isNumeral ds n ->
         toLowerCase query
         = pre ++ lit "more than " ++ ds ++ lit " character" ++ post ->
         noEarlierMatch 2 longerThanRe pre
           (lit "more than " ++ ds ++ lit " character" ++ post) ->
         search 1 atLeastRe (toLowerCase query) = None ->
         Filters.min_length (parseNaturalLanguageQuery query)
         = Some (add (ofInteger n) (Fin 1))
         /\ (n < 2 ^ 53 ->
             Filters.min_length (parseNaturalLanguageQuery query)
             = Some (Fin (n + 1))))
  /\ (forall (query pre ds post : jsstring) (n : Z),
         isNumeral ds n -> endsNumber post ->
         toLowerCase query = pre ++ lit "shorter than " ++ ds ++ post ->
         noEarlierMatch 2 shorterThanRe pre
           (lit "shorter than " ++ ds ++ post) ->
         Filters.max_length (parseNaturalLanguageQuery query)
         = Some (sub (ofInteger n) (Fin 1))
         /\ (n < 2 ^ 53 ->
             Filters.max_length (parseNaturalLanguageQuery query)
             = Some (Fin (n - 1))))
  /\ (forall (query pre ds post : jsstring) (n : Z),
         isNumeral ds n ->
         toLowerCase query
         = pre ++ lit "less than " ++ ds ++ lit " character" ++ post ->
         noEarlierMatch 2 shorterThanRe pre
           (lit "less than " ++ ds ++ lit " character" ++ post) ->
         Filters.max_length (parseNaturalLanguageQuery query)
         = Some (sub (ofInteger n) (Fin 1))
         /\ (n < 2 ^ 53 ->
             Filters.max_length (parseNaturalLanguageQuery query)
             = Some (Fin (n - 1))))
  /\ parseNaturalLanguageQuery (lit "strings longer than 10 characters")
     = Filters.set_min_length (Some (Fin 11)) Filters.empty.
Proof.
  split; [exact numeral_exists|].
  split; [|split; [|split; [|split]]].
  - intros query pre ds post n Hnum Hpost Hq Hpre Hat.
    unfold parseNaturalLanguageQuery. rewrite Hq in Hat |- *.
    pose proof (numeral_nonneg ds n Hnum) as H0.
    pose proof Hnum as (Hne & Hd & Hv).
    rewrite (min_length_of_numeral _ [Some ds; None] ds n
               (longest_match_first _ _ _ _ _ Hpre
                  (longerThan_at ds post Hne Hd Hpost))
               (proj1 (numeral_capture ds n Hnum)) Hnum Hat).
    split; [reflexivity|]. intros Hn.
    rewrite (proj1 (successor_exact n (conj H0 Hn))). reflexivity.
  - intros query pre ds post n Hnum Hq Hpre Hat.
    unfold parseNaturalLanguageQuery. rewrite Hq in Hat |- *.
    pose proof (numeral_nonneg ds n Hnum) as H0.
    pose proof Hnum as (Hne & Hd & Hv).
    rewrite (min_length_of_numeral _ [None; Some ds] ds n
               (longest_match_first _ _ _ _ _ Hpre
                  (moreThan_at ds post Hne Hd))
               (proj2 (numeral_capture ds n Hnum)) Hnum Hat).
    split; [reflexivity|]. intros Hn.
    rewrite (proj1 (successor_exact n (conj H0 Hn))). reflexivity.
  - intros query pre ds post n Hnum Hpost Hq Hpre.
    unfold parseNaturalLanguageQuery. rewrite Hq.
    pose proof (numeral_nonneg ds n Hnum) as H0.
    pose proof Hnum as (Hne & Hd & Hv).
    rewrite (max_length_of_numeral _ [Some ds; None] ds n
               (longest_match_first _ _ _ _ _ Hpre
                  (shorterThan_at ds post Hne Hd Hpost))
               (proj1 (numeral_capture ds n Hnum)) Hnum).
    split; [reflexivity|]. intros Hn.
    rewrite (proj2 (successor_exact n (conj H0 Hn))). reflexivity.
  - intros query pre ds post n Hnum Hq Hpre.
    unfold parseNaturalLanguageQuery. rewrite Hq.
    pose proof (numeral_nonneg ds n Hnum) as H0.
    pose proof Hnum as (Hne & Hd & Hv).
    rewrite (max_length_of_numeral _ [None; Some ds] ds n
               (longest_match_first _ _ _ _ _ Hpre
                  (lessThan_at ds post Hne Hd))
               (proj2 (numeral_capture ds n Hnum)) Hnum).
    split; [reflexivity|]. intros Hn.
    rewrite (proj2 (successor_exact n (conj H0 Hn))). reflexivity.
  - unfold parseNaturalLanguageQuery.
    rewrite toLowerCase_basic by literal_forall. vm_compute. reflexivity.
Qed.

(** *** Further properties *)

(** Lookup by value in a reachable store: the record found holds the value
    and is identified by the digest of the value; right after a successful
    insertion the record found is the one inserted. *)
Theorem lookup_returns_hashed_record :
  (forall (value : jsstring) (st : store) (d : StringData.t),
      Reachable st ->
      getStringByValue value st = Some d ->
      StringData.value d = value
      /\ StringData.id d = generateSHA256 value)
  /\ (forall (now value : jsstring) (st : store) (d : StringData.t),
         Reachable st ->
         fst (addString now value (analyseString value) st) = Return d ->
         getStringByValue value
           (snd (addString now value (analyseString value) st)) = Some d
         /\ StringData.id d = generateSHA256 value).
Proof.
  split.
  - intros value st d Hreach Hget.
    destruct (reachable_inv st Hreach) as [_ Hall].
    unfold getStringByValue, JsMap.entries in Hget.
    destruct (findByValue value st) as [[k x]|] eqn:Hfind; [|discriminate].
    injection Hget as ->.
    apply findByValue_some in Hfind as (l1 & l2 & -> & Hv & _).
    split; [exact Hv|].
    apply Forall_app in Hall as [_ Hall].
    apply Forall_cons in Hall as [[Hk Hid] _]. simpl in Hk, Hid.
    rewrite Hid, Hk, Hv. reflexivity.
  - intros now value st d Hreach Hadd.
    pose proof (reachable_inv st Hreach) as Hinv.
    destruct (JsMap.has (Properties.sha256_hash (analyseString value)) st)
      eqn:Hhas.
    { rewrite addString_duplicate in Hadd by exact Hhas. discriminate. }
    pose proof Hhas as Hkey. apply has_false_iff in Hkey.
    cbn [analyseString Properties.sha256_hash] in Hkey.
    pose proof (absent_key_absent_value value st Hinv Hkey) as Hnone.
    rewrite addString_fresh in Hadd |- * by exact Hhas.
    cbn [fst snd] in Hadd |- *. injection Hadd as <-.
    split; [|reflexivity].
    unfold getStringByValue, JsMap.entries.
    rewrite (findByValue_app_none _ _ _ Hnone). simpl.
    rewrite eqb_refl. reflexivity.
Qed.

(** The translator key by key: which rule decides each key of the result.
    Rule 3 wins over rule 2, rule 6 over rule 4, rule 8 over rule 7 and an
    ordinal vowel phrase over both. *)
Theorem translator_precedence (query : jsstring) :
  let lq := toLowerCase query in
  let result := parseNaturalLanguageQuery query in
  Filters.is_palindrome result
  = (if includes lq (lit "palindrom") then Some true else None)
  /\ Filters.word_count result
     = (if includes lq (lit "two word") || includes lq (lit "double word")
        then Some (Fin 2)
        else if includes lq (lit "single word")
                || includes lq (lit "one word")
             then Some (Fin 1) else None)
  /\ Filters.min_length result
     = match search 1 atLeastRe lq with
       | Some m => Some (parseIntOpt (group m 0))
       | None =>
           match search 2 longerThanRe lq with
           | Some m =>
               Some (add (parseIntOpt (orElse (group m 0) (group m 1)))
                         (Fin 1))
           | None => None
           end
       end
  /\ Filters.max_length result
     = match search 2 shorterThanRe lq with
       | Some m =>
           Some (sub (parseIntOpt (orElse (group m 0) (group m 1))) (Fin 1))
       | None => None
       end
  /\ Filters.contains_character result
     = vowelChoice lq
         match search 1 containsRe lq with
         | Some m => group m 0
         | None =>
             match search 2 letterRe lq with
             | Some m => orElse (group m 0) (group m 1)
             | None => None
             end
         end.
Proof.
  cbv zeta. unfold parseNaturalLanguageQuery.
  split; [apply translate_is_palindrome|].
  split; [apply translate_word_count|].
  split; [apply translate_min_length|].
  split; [apply translate_max_length|apply translate_contains_character].
Qed.

(** The examples of the specification for the translator and the analyser
    on ["racecar"] and ["aabb"]. *)
Theorem specification_examples :
  parseNaturalLanguageQuery (lit "all single word palindromic strings")
  = Filters.set_word_count (Some (Fin 1))
      (Filters.set_is_palindrome (Some true) Filters.empty)
  /\ parseNaturalLanguageQuery (lit "strings with the first vowel")
     = Filters.set_contains_character (Some (lit "a")) Filters.empty
  /\ Properties.unique_characters (analyseString (lit "aabb")) = 2
  /\ Properties.length (analyseString (lit "racecar")) = 7
  /\ Properties.is_palindrome (analyseString (lit "racecar")) = true
  /\ Properties.word_count (analyseString (lit "racecar")) = 1
  /\ Properties.unique_characters (analyseString (lit "racecar")) = 4.
Proof.
  unfold parseNaturalLanguageQuery.
  rewrite !toLowerCase_basic by literal_forall.
  cbn [analyseString Properties.unique_characters Properties.length
       Properties.is_palindrome Properties.word_count].
  rewrite isPalindrome_basic by literal_forall.
  repeat split; vm_compute; reflexivity.
Qed.

(** [GET /strings] answers 200 when its parameters pass the checks and 400
    otherwise. *)
Theorem list_route_status (query : ListQuery.t) (stringStore : store) :
  status (listStrings query stringStore)
  = if validQuery query then 200 else 400.
Proof.
  destruct (validQuery query) eqn:E.
  - rewrite (listStrings_valid query stringStore E). reflexivity.
  - apply listStrings_invalid, E.
Qed.

(** *** Words *)

Lemma splitWsFrom_length (s : jsstring) :
  forall (inSep : bool) (cur : jsstring),
    (1 <= length (splitWsFrom inSep cur s))%nat.
Proof.
  induction s as [|c s IH]; intros inSep cur; simpl; [lia|].
  destruct (isWhiteSpace c); [destruct inSep|]; simpl;
    try apply IH; lia.
Qed.

(** The word count is never zero. *)
Theorem word_count_at_least_one (str : jsstring) :
  1 <= Properties.word_count (analyseString str).
Proof.
  cbn [analyseString Properties.word_count].
  pose proof (splitWsFrom_length (trim str) false []) as H.
  unfold splitWs. lia.
Qed.

Lemma trimStart_blank_app (lead s : jsstring) :
  blank lead -> trimStart (lead ++ s) = trimStart s.
Proof.
  induction 1 as [|c lead Hc _ IH]; simpl; [reflexivity|].
  rewrite Hc. exact IH.
Qed.

Lemma trimStart_word_head (c : codeunit) (s : jsstring) :
  isWhiteSpace c = false -> trimStart (c :: s) = c :: s.
Proof. intros H. simpl. rewrite H. reflexivity. Qed.

Lemma trimEnd_blank_app (s trail : jsstring) :
  blank trail -> trimEnd (s ++ trail) = trimEnd s.
Proof.
  intros H. unfold trimEnd. rewrite rev_app_distr.
  rewrite trimStart_blank_app; [reflexivity|].
  apply Forall_rev, H.
Qed.

Lemma trimEnd_word_last (s : jsstring) (c : codeunit) :
  isWhiteSpace c = false -> trimEnd (s ++ [c]) = s ++ [c].
Proof.
  intros H. unfold trimEnd. rewrite rev_app_distr. simpl.
  rewrite H. simpl. rewrite rev_involutive. reflexivity.
Qed.

Lemma word_ends (w : jsstring) :
  isWord w ->
  (exists c w', w = c :: w' /\ isWhiteSpace c = false)
  /\ (exists w' c, w = w' ++ [c] /\ isWhiteSpace c = false).
Proof.
  intros [Hne Hw]. split.
  - destruct w as [|c w']; [congruence|].
    apply Forall_cons in Hw as [Hc _]. eauto.
  - destruct (exists_last Hne) as (w' & c & ->).
    apply Forall_app in Hw as [_ Hc].
    apply Forall_cons in Hc as [Hc _]. eauto.
Qed.

(** Words joined by gaps begin and end with a code unit of a word. *)
Lemma joinWords_ends (rest : list (jsstring * jsstring)) :
  forall first : jsstring,
    isWord first ->
    Forall (fun gw => isGap (fst gw) /\ isWord (snd gw)) rest ->
    (exists c t, joinWords first rest = c :: t /\ isWhiteSpace c = false)
    /\ (exists t c, joinWords first rest = t ++ [c]
                    /\ isWhiteSpace c = false).
Proof.
  induction rest as [|[gap word] rest IH]; intros first Hfirst Hrest; simpl.
  - apply word_ends, Hfirst.
  - apply Forall_cons in Hrest as [[_ Hword] Hrest]. simpl in Hword.
    destruct (proj1 (word_ends first Hfirst)) as (c & w' & -> & Hc).
    destruct (proj2 (IH word Hword Hrest)) as (t & c' & -> & Hc').
    split.
    + exists c, (w' ++ gap ++ t ++ [c']). split; [reflexivity|exact Hc].
    + exists ((c :: w') ++ gap ++ t), c'. split; [|exact Hc'].
      rewrite <- !app_assoc. reflexivity.
Qed.

Lemma trim_surrounded (lead s trail : jsstring) :
  blank lead -> blank trail ->
  (exists c t, s = c :: t /\ isWhiteSpace c = false) ->
  (exists t c, s = t ++ [c] /\ isWhiteSpace c = false) ->
  trim (lead ++ s ++ trail) = s.
Proof.
  intros Hlead Htrail (c & t & Hs & Hc) (t' & c' & Hs' & Hc').
  unfold trim. rewrite (trimStart_blank_app lead _ Hlead).
  rewrite Hs. change ((c :: t) ++ trail) with (c :: (t ++ trail)).
  rewrite (trimStart_word_head c _ Hc).
  change (c :: (t ++ trail)) with ((c :: t) ++ trail).
  rewrite (trimEnd_blank_app _ trail Htrail), <- Hs, Hs'.
  apply trimEnd_word_last, Hc'.
Qed.

Lemma splitWsFrom_word (w : jsstring) :
  forall (inSep : bool) (cur s : jsstring),
    Forall (fun c => isWhiteSpace c = false) w ->
    inSep = false \/ w <> [] ->
    splitWsFrom inSep cur (w ++ s) = splitWsFrom false (cur ++ w) s.
Proof.
  induction w as [|c w IH]; intros inSep cur s Hw Hin; simpl.
  - destruct Hin as [->|Hne]; [|congruence].
    rewrite app_nil_r. reflexivity.
  - apply Forall_cons in Hw as [Hc Hw]. rewrite Hc.
    rewrite (IH false (cur ++ [c]) s Hw) by (left; reflexivity).
    rewrite <- app_assoc. reflexivity.
Qed.

Lemma splitWsFrom_gap_rest (g : jsstring) :
  forall (cur s : jsstring),
    blank g -> splitWsFrom true cur (g ++ s) = splitWsFrom true cur s.
Proof.
  induction g as [|c g IH]; intros cur s Hg; simpl; [reflexivity|].
  apply Forall_cons in Hg as [Hc Hg]. rewrite Hc. apply IH, Hg.
Qed.

Lemma splitWsFrom_gap (g cur s : jsstring) :
  isGap g ->
  splitWsFrom false cur (g ++ s) = cur :: splitWsFrom true [] s.
Proof.
  intros [Hne Hg]. destruct g as [|c g]; [congruence|].
  apply Forall_cons in Hg as [Hc Hg]. simpl. rewrite Hc.
  rewrite (splitWsFrom_gap_rest g [] s Hg). reflexivity.
Qed.

Lemma splitWsFrom_joinWords (rest : list (jsstring * jsstring)) :
  forall (inSep : bool) (cur first : jsstring),
    isWord first ->
    Forall (fun gw => isGap (fst gw) /\ isWord (snd gw)) rest ->
    splitWsFrom inSep cur (joinWords first rest)
    = (cur ++ first) :: map snd rest.
Proof.
  induction rest as [|[gap word] rest IH];
    intros inSep cur first [Hne Hfirst] Hrest; simpl.
  - rewrite <- (app_nil_r first) at 1.
    rewrite (splitWsFrom_word first inSep cur [] Hfirst) by (right; exact Hne).
    reflexivity.
  - apply Forall_cons in Hrest as [[Hgap Hword] Hrest]. simpl in Hgap, Hword.
    rewrite (splitWsFrom_word first inSep cur _ Hfirst) by (right; exact Hne).
    rewrite (splitWsFrom_gap gap _ _ Hgap).
    rewrite (IH true [] word Hword Hrest). reflexivity.
Qed.

(** Splitting recovers the words: for words separated by gaps, with any
    white space before and after, the tokens counted are the words, so the
    word count is their number. *)
Theorem split_recovers_words (lead trail first : jsstring)
    (rest : list (jsstring * jsstring)) :
  blank lead -> blank trail -> isWord first ->
  Forall (fun gw => isGap (fst gw) /\ isWord (snd gw)) rest ->
  let str := lead ++ joinWords first rest ++ trail in
  splitWs (trim str) = first :: map snd rest
  /\ Properties.word_count (analyseString str)
     = 1 + Z.of_nat (length rest).
Proof.
  intros Hlead Htrail Hfirst Hrest str.
  destruct (joinWords_ends rest first Hfirst Hrest) as [Hhead Hlast].
  assert (splitWs (trim str) = first :: map snd rest) as E.
  { unfold str. rewrite (trim_surrounded _ _ _ Hlead Htrail Hhead Hlast).
    unfold splitWs.
    exact (splitWsFrom_joinWords rest false [] first Hfirst Hrest). }
  split; [exact E|].
  cbn [analyseString Properties.word_count]. rewrite E. simpl.
  rewrite length_map. lia.
Qed.

(** *** Code points and exact counts *)

Lemma occurrences_cons (k c : jsstring) (l : list jsstring) :
  occurrences k (c :: l)
  = (if JsString.eqb k c then 1 else 0) + occurrences k l.
Proof.
  unfold occurrences. simpl. destruct (JsString.eqb k c); simpl; lia.
Qed.

Lemma occurrences_nonneg (k : jsstring) (l : list jsstring) :
  0 <= occurrences k l.
Proof. unfold occurrences. lia. Qed.

(** One turn of the loop adds one to the count of the character read and
    leaves the other counts alone. *)
Lemma countStep_lookup (m : gmap jsstring Z) (c k : jsstring) :
  positiveCounts m ->
  countStep m c !! k
  = if JsString.eqb k c
    then Some (match m !! k with Some n => n + 1 | None => 1 end)
    else m !! k.
Proof.
  intros Hpos. unfold countStep.
  destruct (JsString.eqb k c) eqn:E.
  - apply eqb_eq in E. subst c.
    destruct (m !! k) as [n|] eqn:Hk.
    + pose proof (Hpos _ _ Hk).
      assert (truthy n = true) as ->
          by (unfold truthy; apply negb_true_iff, Z.eqb_neq; lia).
      apply lookup_insert_eq.
    + apply lookup_insert_eq.
  - apply eqb_neq in E.
    destruct (m !! c) as [n|]; [destruct (truthy n)|];
      apply lookup_insert_ne; congruence.
Qed.

Lemma count_loop_lookup (chars : list jsstring) :
  forall (m : gmap jsstring Z) (k : jsstring),
    positiveCounts m ->
    foldl countStep m chars !! k
    = match m !! k with
      | Some n => Some (n + occurrences k chars)
      | None =>
          if occurrences k chars =? 0 then None
          else Some (occurrences k chars)
      end.
Proof.
  induction chars as [|c chars IH]; intros m k Hpos; simpl.
  - destruct (m !! k); [f_equal; unfold occurrences; simpl; lia|reflexivity].
  - destruct (countStep_spec m c Hpos) as (Hpos' & _ & _).
    rewrite (IH _ k Hpos'), (countStep_lookup m c k Hpos), occurrences_cons.
    pose proof (occurrences_nonneg k chars) as H0.
    destruct (JsString.eqb k c).
    + destruct (m !! k) as [n|]; [f_equal; lia|].
      destruct (Z.eqb_spec (1 + occurrences k chars) 0); [lia|reflexivity].
    + destruct (m !! k) as [n|]; reflexivity.
Qed.

(** The tally holds, for each character, the number of its occurrences
    among the code points of the string, and no entry for a character
    that does not occur. *)
Theorem character_frequency_counts (str k : jsstring) :
  Properties.character_frequency (analyseString str) !! k
  = if occurrences k (codePoints str) =? 0 then None
    else Some (occurrences k (codePoints str)).
Proof.
  cbn [analyseString Properties.character_frequency].
  unfold countCharacterFrequency. rewrite count_loop_lookup.
  - rewrite lookup_empty. reflexivity.
  - intros x n. rewrite lookup_empty. discriminate.
Qed.

(** Induction on a string two code units at a time, as [codePoints] reads
    it. *)
Lemma codePoints_ind (P : jsstring -> Prop) :
  P [] ->
  (forall c, P [c]) ->
  (forall c d rest,
      isLeadSurrogate c && isTrailSurrogate d = true ->
      P rest -> P (c :: d :: rest)) ->
  (forall c d rest,
      isLeadSurrogate c && isTrailSurrogate d = false ->
      P (d :: rest) -> P (c :: d :: rest)) ->
  forall s, P s.
Proof.
  intros Hnil Hone Hpair Hunit s.
  assert (forall n s, (length s <= n)%nat -> P s) as Hall.
  { induction n as [|n IH]; intros t Ht.
    - destruct t; [exact Hnil|simpl in Ht; lia].
    - destruct t as [|c [|d rest]]; [exact Hnil|apply Hone|].
      simpl in Ht.
      destruct (isLeadSurrogate c && isTrailSurrogate d) eqn:E.
      + apply Hpair; [exact E|]. apply IH. lia.
      + apply Hunit; [exact E|]. apply IH. simpl. lia. }
  exact (Hall (length s) s (Nat.le_refl _)).
Qed.

Lemma codePoints_pair (c d : codeunit) (rest : jsstring) :
  isLeadSurrogate c && isTrailSurrogate d = true ->
  codePoints (c :: d :: rest) = [c; d] :: codePoints rest.
Proof. intros H. simpl. rewrite H. reflexivity. Qed.

Lemma codePoints_unit (c d : codeunit) (rest : jsstring) :
  isLeadSurrogate c && isTrailSurrogate d = false ->
  codePoints (c :: d :: rest) = [c] :: codePoints (d :: rest).
Proof. intros H. cbn [codePoints]. rewrite H. reflexivity. Qed.

Lemma codePoints_concat (s : jsstring) : concat (codePoints s) = s.
Proof.
  induction s as [|c|c d rest H IH|c d rest H IH] using codePoints_ind.
  - reflexivity.
  - reflexivity.
  - rewrite (codePoints_pair c d rest H). simpl. rewrite IH. reflexivity.
  - rewrite (codePoints_unit c d rest H).
    change (concat ([c] :: codePoints (d :: rest)))
      with (c :: concat (codePoints (d :: rest))).
    rewrite IH. reflexivity.
Qed.

Lemma codePoints_shape (s : jsstring) :
  Forall (fun p => exists c,
              p = [c]
              \/ exists d, p = [c; d]
                           /\ isLeadSurrogate c && isTrailSurrogate d = true)
         (codePoints s).
Proof.
  induction s as [|c|c d rest H IH|c d rest H IH] using codePoints_ind.
  - constructor.
  - repeat constructor. exists c. left. reflexivity.
  - rewrite (codePoints_pair c d rest H). constructor; [|exact IH].
    exists c. right. exists d. split; [reflexivity|exact H].
  - rewrite (codePoints_unit c d rest H). constructor; [|exact IH].
    exists c. left. reflexivity.
Qed.

Lemma codePoints_length_le (s : jsstring) :
  (length (codePoints s) <= length s)%nat.
Proof.
  induction s as [|c|c d rest H IH|c d rest H IH] using codePoints_ind.
  - simpl. lia.
  - simpl. lia.
  - rewrite (codePoints_pair c d rest H). simpl. lia.
  - rewrite (codePoints_unit c d rest H). simpl in *. lia.
Qed.

Lemma codePoints_no_pair (s : jsstring) :
  Forall (fun c => isLeadSurrogate c = false) s ->
  codePoints s = splitUnits s.
Proof.
  induction s as [|c|c d rest H IH|c d rest H IH] using codePoints_ind;
    intros Hs.
  - reflexivity.
  - reflexivity.
  - apply Forall_cons in Hs as [Hc _].
    rewrite Hc in H. discriminate.
  - apply Forall_cons in Hs as [_ Hs].
    rewrite (codePoints_unit c d rest H), (IH Hs). reflexivity.
Qed.

Lemma size_list_to_set_bound (l : list jsstring) :
  (size (list_to_set l : gset jsstring) <= length l)%nat.
Proof.
  induction l as [|x l IH].
  - rewrite list_to_set_nil, size_empty. simpl. lia.
  - rewrite list_to_set_cons, size_union_alt, size_singleton. simpl.
    assert (size (list_to_set l ∖ {[x]} : gset jsstring)
            <= size (list_to_set l : gset jsstring))%nat as H
        by (apply subseteq_size, subseteq_difference_l; reflexivity).
    lia.
Qed.

(** Iteration by code point loses nothing and splits only surrogate pairs:
    the pieces concatenate to the string, each is one code unit or a
    surrogate pair, and so the counts of the tally add up to at most the
    length, and to the length itself when the string has no leading
    surrogate; the number of distinct characters is at most the length. *)
Theorem code_points_cover_string (str : jsstring) :
  let p := analyseString str in
  concat (codePoints str) = str
  /\ Forall (fun piece => exists c,
                piece = [c]
                \/ exists d, piece = [c; d]
                             /\ isLeadSurrogate c && isTrailSurrogate d = true)
            (codePoints str)
  /\ sumCounts (Properties.character_frequency p) <= Properties.length p
  /\ Properties.unique_characters p <= Properties.length p
  /\ (Forall (fun c => isLeadSurrogate c = false) str ->
      sumCounts (Properties.character_frequency p) = Properties.length p).
Proof.
  cbn [analyseString Properties.character_frequency Properties.length
       Properties.unique_characters].
  unfold countCharacterFrequency.
  assert (positiveCounts ∅) as H0.
  { intros k n. rewrite lookup_empty. discriminate. }
  destruct (count_loop_spec (codePoints str) ∅ H0) as (_ & _ & Hs).
  unfold sumCounts at 2 in Hs. rewrite map_fold_empty in Hs.
  pose proof (codePoints_length_le str) as Hle.
  split; [apply codePoints_concat|]. split; [apply codePoints_shape|].
  split; [lia|]. split.
  - pose proof (size_list_to_set_bound (codePoints str)). lia.
  - intros Hbmp. rewrite Hs, (codePoints_no_pair str Hbmp).
    unfold splitUnits. rewrite length_map. lia.
Qed.

(** *** Palindromes on Basic Latin text *)

Lemma eqb_sym (a b : jsstring) : JsString.eqb a b = JsString.eqb b a.
Proof.
  destruct (JsString.eqb a b) eqn:E; symmetry.
  - apply eqb_eq. apply eqb_eq in E. congruence.
  - apply eqb_neq. apply eqb_neq in E. congruence.
Qed.

Lemma normalised_app (s t : jsstring) :
  normalised (s ++ t) = normalised s ++ normalised t.
Proof.
  unfold normalised, removeWhiteSpace, toLowerCaseBasic.
  rewrite map_app, List.filter_app. reflexivity.
Qed.

Lemma normalised_rev (s : jsstring) : normalised (rev s) = rev (normalised s).
Proof.
  induction s as [|c s IH]; [reflexivity|].
  change (c :: s) with ([c] ++ s).
  rewrite rev_app_distr, !normalised_app, rev_app_distr, IH. f_equal.
  unfold normalised, removeWhiteSpace, toLowerCaseBasic. simpl.
  destruct (isWhiteSpace (lowerBasicLatin c)); reflexivity.
Qed.

Lemma normalised_blank (g : jsstring) : blank g -> normalised g = [].
Proof.
  intros H. unfold normalised. rewrite (lower_white g H).
  apply removeWhiteSpace_white, H.
Qed.

Lemma isPalindrome_normalised (str : jsstring) :
  Forall (fun c => isBasic c = true) str ->
  isPalindrome str = JsString.eqb (rev (normalised str)) (normalised str).
Proof. apply isPalindrome_basic. Qed.

(** On text of the Basic Latin block and white space, the palindrome check
    gives the same answer for a string and its reversal, accepts every
    string followed by its reversal as well as the empty string and every
    single code unit, is not affected by white space inserted anywhere, and
    gives the same answer for two strings that differ only in the case of
    their letters. *)
Theorem palindrome_symmetries :
  (forall str : jsstring,
      Forall (fun c => isBasic c = true) str ->
      isPalindrome (rev str) = isPalindrome str)
  /\ (forall w : jsstring,
         Forall (fun c => isBasic c = true) w ->
         isPalindrome (w ++ rev w) = true)
  /\ isPalindrome [] = true
  /\ (forall c : codeunit, isBasic c = true -> isPalindrome [c] = true)
  /\ (forall a g b : jsstring,
         Forall (fun c => isBasic c = true) a ->
         Forall (fun c => isBasic c = true) b ->
         blank g ->
         isPalindrome (a ++ g ++ b) = isPalindrome (a ++ b))
  /\ (forall s t : jsstring,
         Forall (fun c => isBasic c = true) s ->
         Forall (fun c => isBasic c = true) t ->
         toLowerCaseBasic s = toLowerCaseBasic t ->
         isPalindrome s = isPalindrome t).
Proof.
  split; [|split; [|split; [|split; [|split]]]].
  - intros str H.
    rewrite (isPalindrome_normalised (rev str)) by (apply Forall_rev, H).
    rewrite (isPalindrome_normalised str H), normalised_rev, rev_involutive.
    apply eqb_sym.
  - intros w H.
    rewrite isPalindrome_normalised
      by (apply Forall_app; split; [exact H|apply Forall_rev, H]).
    rewrite normalised_app, normalised_rev, rev_app_distr, rev_involutive.
    apply eqb_refl.
  - rewrite isPalindrome_normalised by constructor. reflexivity.
  - intros c Hc.
    rewrite isPalindrome_normalised by (repeat constructor; exact Hc).
    unfold normalised, removeWhiteSpace, toLowerCaseBasic. simpl.
    destruct (isWhiteSpace (lowerBasicLatin c)); simpl;
      [reflexivity|rewrite N.eqb_refl; reflexivity].
  - intros a g b Ha Hb Hg.
    rewrite !isPalindrome_normalised.
    + rewrite !normalised_app, (normalised_blank g Hg). reflexivity.
    + apply Forall_app. split; assumption.
    + apply Forall_app. split; [exact Ha|].
      apply Forall_app. split; [apply white_is_basic, Hg|exact Hb].
  - intros s t Hs Ht E.
    rewrite (isPalindrome_normalised s Hs), (isPalindrome_normalised t Ht).
    unfold normalised. rewrite E. reflexivity.
Qed.

(** *** The store: counts, frames and the data model *)

Lemma remove_present_length {V} (k : jsstring) (m : JsMap.t V) :
  JsMap.has k m = true -> S (length (JsMap.remove k m)) = length m.
Proof.
  unfold JsMap.has. induction m as [|[k' v] m IH]; simpl; [discriminate|].
  destruct (JsString.eqb k' k); [reflexivity|].
  intros H. simpl. rewrite (IH H). reflexivity.
Qed.

Lemma found_key_present (value id : jsstring) (d : StringData.t)
    (st : store) :
  findByValue value st = Some (id, d) -> JsMap.has id st = true.
Proof.
  intros H. apply findByValue_some in H as (l1 & l2 & -> & _ & _).
  apply has_middle.
Qed.

Lemma findByValue_app (value : jsstring)
    (l1 l2 : list (jsstring * StringData.t)) :
  findByValue value (l1 ++ l2)
  = match findByValue value l1 with
    | Some e => Some e
    | None => findByValue value l2
    end.
Proof.
  induction l1 as [|[k x] l1 IH]; simpl; [reflexivity|].
  destruct (JsString.eqb (StringData.value x) value); [reflexivity|exact IH].
Qed.

(** Deletion and lookup agree, and the count follows: in any store a
    deletion reports true exactly when a lookup of the value finds a record,
    it then removes exactly one record, and otherwise none; an insertion
    adds one record exactly when the hash was not a key. *)
Theorem delete_agrees_with_lookup (now value : jsstring)
    (properties : Properties.t) (st : store) :
  fst (deleteStringByValue value st)
  = match getStringByValue value st with Some _ => true | None => false end
  /\ getCount (snd (deleteStringByValue value st))
     = getCount st
       - match getStringByValue value st with Some _ => 1 | None => 0 end
  /\ getCount (snd (addString now value properties st))
     = getCount st
       + (if JsMap.has (Properties.sha256_hash properties) st then 0 else 1).
Proof.
  unfold deleteStringByValue, getStringByValue, JsMap.entries, getCount,
    JsMap.size.
  split; [|split].
  - destruct (findByValue value st) as [[id d]|] eqn:E; [|reflexivity].
    cbn [JsMap.delete fst]. exact (found_key_present _ _ _ _ E).
  - destruct (findByValue value st) as [[id d]|] eqn:E; [|simpl; lia].
    cbn [JsMap.delete snd].
    pose proof (remove_present_length id st (found_key_present _ _ _ _ E)).
    lia.
  - destruct (JsMap.has (Properties.sha256_hash properties) st) eqn:E.
    + rewrite addString_duplicate by exact E. simpl. lia.
    + rewrite addString_fresh by exact E. cbn [snd].
      rewrite length_app. simpl. lia.
Qed.

(** Other values are not affected: an insertion never changes what a
    lookup of another value finds, and in a reachable store neither does a
    deletion. *)
Theorem other_values_untouched :
  (forall (now value other : jsstring) (properties : Properties.t)
          (st : store),
      other <> value ->
      getStringByValue other (snd (addString now value properties st))
      = getStringByValue other st)
  /\ (forall (value other : jsstring) (st : store),
         Reachable st ->
         other <> value ->
         getStringByValue other (snd (deleteStringByValue value st))
         = getStringByValue other st).
Proof.
  split.
  - intros now value other properties st Hne.
    destruct (JsMap.has (Properties.sha256_hash properties) st) eqn:E.
    + rewrite addString_duplicate by exact E. reflexivity.
    + rewrite addString_fresh by exact E. cbn [snd].
      unfold getStringByValue, JsMap.entries. rewrite findByValue_app.
      destruct (findByValue other st) as [[k x]|]; [reflexivity|].
      simpl. assert (JsString.eqb value other = false) as ->
          by (apply eqb_neq; congruence).
      reflexivity.
  - intros value other st Hreach Hne.
    pose proof (reachable_inv st Hreach) as Hinv.
    destruct (findByValue value st) as [[id d]|] eqn:Hfind.
    + destruct (delete_found value id d st Hinv Hfind)
        as (l1 & l2 & Hst & Hv & Hdel & _).
      rewrite Hdel. cbn [snd]. rewrite Hst.
      unfold getStringByValue, JsMap.entries. rewrite !findByValue_app.
      destruct (findByValue other l1) as [[k x]|]; [reflexivity|].
      simpl. rewrite Hv.
      assert (JsString.eqb value other = false) as ->
          by (apply eqb_neq; congruence).
      reflexivity.
    + unfold deleteStringByValue, JsMap.entries. rewrite Hfind. reflexivity.
Qed.

Lemma reachable_records (st : store) :
  Reachable st ->
  Forall (fun e : jsstring * StringData.t =>
            exists now,
              e = (generateSHA256 (StringData.value (snd e)),
                   recordOf now (StringData.value (snd e)))) st.
Proof.
  induction 1 as [|now value st _ IH|value st _ IH|st _ _].
  - constructor.
  - destruct (JsMap.has (Properties.sha256_hash (analyseString value)) st)
      eqn:E.
    + rewrite addString_duplicate by exact E. exact IH.
    + rewrite addString_fresh by exact E. cbn [snd].
      apply Forall_app. split; [exact IH|].
      constructor; [|constructor]. exists now. reflexivity.
  - unfold deleteStringByValue.
    destruct (findByValue value (JsMap.entries st)) as [[id d]|];
      [|exact IH].
    cbn [JsMap.delete snd]. apply remove_Forall, IH.
  - constructor.
Qed.

Lemma keys_are_hashed_values (st : store) :
  StoreInv st ->
  JsMap.keys st = generateSHA256 <$> (StringData.value <$> getAllString st).
Proof.
  intros [_ Hall]. unfold JsMap.keys, getAllString, JsMap.values.
  induction Hall as [|[k x] st [Hk _] _ IH]; [reflexivity|].
  simpl in Hk. rewrite !fmap_cons, IH. simpl. rewrite Hk. reflexivity.
Qed.

(** The data model holds in every reachable store: no value is stored
    twice, every entry is filed under the digest of its value, and every
    record is the one the create route builds from its value, so that its
    properties are the analysis of its value. *)
Theorem reachable_store_well_formed (st : store) :
  Reachable st ->
  WellFormed st
  /\ (forall d, d ∈ getAllString st ->
                StringData.id d = generateSHA256 (StringData.value d)
                /\ StringData.properties d
                   = analyseString (StringData.value d))
  /\ getCount st
     = Z.of_nat (size (list_to_set (StringData.value <$> getAllString st)
                       : gset jsstring)).
Proof.
  intros Hreach.
  pose proof (reachable_inv st Hreach) as Hinv.
  pose proof (reachable_records st Hreach) as Hrec.
  assert (NoDup (StringData.value <$> getAllString st)) as Hnd.
  { apply (NoDup_fmap_1 generateSHA256).
    rewrite <- (keys_are_hashed_values st Hinv). apply Hinv. }
  split; [split; assumption|]. split.
  - intros d Hd. unfold getAllString, JsMap.values in Hd.
    apply list_elem_of_fmap in Hd as ([k x] & -> & Hin). simpl.
    rewrite Forall_forall in Hrec. destruct (Hrec _ Hin) as [now E].
    simpl in E. injection E as _ E. rewrite E. split; reflexivity.
  - rewrite (size_list_to_set _ Hnd). unfold getCount, JsMap.size.
    unfold getAllString, JsMap.values. rewrite !length_fmap. reflexivity.
Qed.

(** *** Composing filters *)

Lemma filter_sublist {A} (p : A -> bool) (l : list A) :
  List.filter p l `sublist_of` l.
Proof.
  induction l as [|x l IH]; simpl; [constructor|].
  destruct (p x); [apply sublist_skip|apply sublist_cons]; exact IH.
Qed.

Lemma filter_none {A} (p : A -> bool) (l : list A) :
  (forall x, p x = false) -> List.filter p l = [].
Proof.
  intros H. induction l as [|x l IH]; simpl; [reflexivity|].
  rewrite H. exact IH.
Qed.

(** The order of numbers through a length: nothing lies between a minimum
    and a maximum that are not in order. *)
Lemma leb_through_length (a b : number) (len : Z) :
  geb (Fin len) a = true -> leb (Fin len) b = true -> leb a b = true.
Proof.
  unfold geb. destruct a, b; simpl; try discriminate; try reflexivity.
  intros Ha Hb. apply Z.leb_le in Ha, Hb. apply Z.leb_le. lia.
Qed.

(** Filtering keeps a sub-list in the order of the list, judges each record
    on its own, gives the same result when repeated, does not depend on the
    order in which two filter objects are applied, and keeps nothing when
    the minimum length asked for is not at most the maximum (as numbers:
    greater, or one of them NaN), nor when the minimum is Infinity. *)
Theorem filters_compose (f g : Filters.t) (l1 l2 : list StringData.t) :
  applyParsedFilters f l1 `sublist_of` l1
  /\ applyParsedFilters f (l1 ++ l2)
     = applyParsedFilters f l1 ++ applyParsedFilters f l2
  /\ applyParsedFilters f (applyParsedFilters f l1) = applyParsedFilters f l1
  /\ applyParsedFilters f (applyParsedFilters g l1)
     = applyParsedFilters g (applyParsedFilters f l1)
  /\ (forall a b : number,
         Filters.min_length f = Some a ->
         Filters.max_length f = Some b ->
         leb a b = false ->
         applyParsedFilters f l1 = [])
  /\ (Filters.min_length f = Some PosInf -> applyParsedFilters f l1 = []).
Proof.
  rewrite !applyParsedFilters_filter.
  split; [apply filter_sublist|]. split; [apply List.filter_app|].
  split; [|split; [|split]].
  - rewrite filter_filter_and. apply List.filter_ext.
    intros s. destruct (satisfies f s); reflexivity.
  - rewrite !filter_filter_and. apply List.filter_ext.
    intros s. apply andb_comm.
  - intros a b Hmin Hmax Hab. apply filter_none. intros s.
    unfold satisfies. rewrite Hmin, Hmax. unfold lengthOf.
    destruct (geb (Fin (Properties.length (StringData.properties s))) a)
      eqn:Ea;
      [|rewrite andb_false_r; reflexivity].
    destruct (leb (Fin (Properties.length (StringData.properties s))) b)
      eqn:Eb;
      [|rewrite !andb_false_r; reflexivity].
    rewrite (leb_through_length a b _ Ea Eb) in Hab. discriminate.
  - intros Hmin. apply filter_none. intros s.
    unfold satisfies. rewrite Hmin. unfold lengthOf. simpl.
    rewrite andb_false_r. reflexivity.
Qed.

(** *** What the translator can return *)

Lemma take_run (c : codeunit) (w s' : jsstring) :
  take (length (c :: w ++ s') - length s') (c :: w ++ s') = c :: w.
Proof. exact (take_consumed (c :: w) s'). Qed.

Lemma digits_numeral (c : codeunit) (w : jsstring) :
  isDigit c = true -> Forall (fun x => isDigit x = true) w ->
  isNumeral (c :: w) (decimalValue (c :: w)).
Proof.
  intros Hc Hw. split; [congruence|]. split; [|reflexivity].
  constructor; assumption.
Qed.

(** A match of pattern 4, 5 or 6 captures a numeral. *)
Lemma longerThanRe_capture (lq : jsstring) (m : captures) :
  search 2 longerThanRe lq = Some m ->
  exists ds n, orElse (group m 0) (group m 1) = Some ds /\ isNumeral ds n.
Proof.
  intros H. apply search_sound in H as (pre & suf & _ & H).
  apply matchAt_sound in H as [s' M].
  unfold longerThanRe, cat, digits in M. inv_matches.
  all: eexists (_ :: _), _; rewrite take_run;
    split; [reflexivity|apply digits_numeral; assumption].
Qed.

Lemma shorterThanRe_capture (lq : jsstring) (m : captures) :
  search 2 shorterThanRe lq = Some m ->
  exists ds n, orElse (group m 0) (group m 1) = Some ds /\ isNumeral ds n.
Proof.
  intros H. apply search_sound in H as (pre & suf & _ & H).
  apply matchAt_sound in H as [s' M].
  unfold shorterThanRe, cat, digits in M. inv_matches.
  all: eexists (_ :: _), _; rewrite take_run;
    split; [reflexivity|apply digits_numeral; assumption].
Qed.

Lemma atLeastRe_capture (lq : jsstring) (m : captures) :
  search 1 atLeastRe lq = Some m ->
  exists ds n, group m 0 = Some ds /\ isNumeral ds n.
Proof.
  intros H. apply search_sound in H as (pre & suf & _ & H).
  apply matchAt_sound in H as [s' M].
  unfold atLeastRe, cat, digits in M. inv_matches.
  eexists (_ :: _), _. rewrite take_run.
  split; [reflexivity|apply digits_numeral; assumption].
Qed.

Lemma roundNat_nonneg (a v : Z) : 0 <= a -> roundNat a = Some v -> 0 <= v.
Proof.
  intros Ha. unfold roundNat.
  destruct (a <? 2 ^ 53); [intros [= <-]; exact Ha|].
  set (e := Z.log2 a - 52). set (q := a / 2 ^ e).
  set (q' := if a mod 2 ^ e <? 2 ^ (e - 1) then q
             else if 2 ^ (e - 1) <? a mod 2 ^ e then q + 1
                  else if Z.even q then q else q + 1).
  destruct (q' * 2 ^ e <? 2 ^ 1024); [|discriminate].
  intros [= <-].
  assert (0 <= 2 ^ e) as Hp by (apply Z.pow_nonneg; lia).
  assert (0 <= q) as Hq.
  { unfold q. destruct (Z.eq_dec (2 ^ e) 0) as [E|E].
    - rewrite E, Z.div_0_r. lia.
    - apply Z.div_pos; lia. }
  assert (0 <= q') as Hq'.
  { unfold q'. repeat match goal with |- context [if ?b then _ else _] =>
                                       destruct b end; lia. }
  apply Z.mul_nonneg_nonneg; assumption.
Qed.

Lemma ofInteger_nonneg (z : Z) :
  0 <= z ->
  ofInteger z = PosInf \/ exists v, ofInteger z = Fin v /\ 0 <= v.
Proof.
  intros Hz. unfold ofInteger.
  destruct (roundNat (Z.abs z)) as [v|] eqn:E.
  - right. exists (Z.sgn z * v). split; [reflexivity|].
    apply roundNat_nonneg in E; [|lia].
    apply Z.mul_nonneg_nonneg; lia.
  - left. destruct (Z.ltb_spec z 0); [lia|reflexivity].
Qed.

Lemma vowelChoice_range (P : jsstring -> Prop) (lq : jsstring)
    (before : option jsstring) (c : jsstring) :
  (forall x, before = Some x -> P x) ->
  Forall P vowels ->
  vowelChoice lq before = Some c -> P c.
Proof.
  intros Hbefore Hv. unfold vowels in Hv.
  repeat (apply Forall_cons in Hv as [? Hv]).
  unfold vowelChoice, vowelWords, vowels. cbn [forEachFrom].
  repeat match goal with
         | |- context [if includes lq ?w then _ else _] =>
             destruct (includes lq w)
         end;
    cbn; intros E; try (injection E as <-; assumption);
    apply Hbefore, E.
Qed.

(** The translator only ever returns: [is_palindrome] true; a [word_count]
    of 1 or 2; a [min_length] that is a non-negative number or Infinity; a
    [max_length] that is a number not below -1 or Infinity; a
    [contains_character] that is one lower-case letter.  No key is ever
    NaN, negative infinity or [is_palindrome] false. *)
Theorem translator_output_ranges (query : jsstring) :
  let result := parseNaturalLanguageQuery query in
  (Filters.is_palindrome result = None
   \/ Filters.is_palindrome result = Some true)
  /\ (Filters.word_count result = None
      \/ Filters.word_count result = Some (Fin 1)
      \/ Filters.word_count result = Some (Fin 2))
  /\ (forall n, Filters.min_length result = Some n ->
                n = PosInf \/ exists z, n = Fin z /\ 0 <= z)
  /\ (forall n, Filters.max_length result = Some n ->
                n = PosInf \/ exists z, n = Fin z /\ -1 <= z)
  /\ (forall c, Filters.contains_character result = Some c ->
                exists u, isLowerLetter u = true /\ c = [u]).
Proof.
  cbv zeta. unfold parseNaturalLanguageQuery.
  set (lq := toLowerCase query).
  split; [|split; [|split; [|split]]].
  - rewrite translate_is_palindrome. destruct (includes lq _); auto.
  - rewrite translate_word_count.
    destruct (_ || _); [auto|]. destruct (_ || _); auto.
  - intros n. rewrite translate_min_length.
    destruct (search 1 atLeastRe lq) as [m|] eqn:E6.
    + destruct (atLeastRe_capture lq m E6) as (ds & v & -> & Hnum).
      cbn [parseIntOpt]. rewrite (parseInt_numeral ds v Hnum).
      intros [= <-]. apply ofInteger_nonneg, (numeral_nonneg ds v Hnum).
    + destruct (search 2 longerThanRe lq) as [m|] eqn:E4; [|discriminate].
      destruct (longerThanRe_capture lq m E4) as (ds & v & -> & Hnum).
      cbn [parseIntOpt]. rewrite (parseInt_numeral ds v Hnum).
      intros [= <-].
      destruct (ofInteger_nonneg v (numeral_nonneg ds v Hnum))
        as [-> | (w & -> & Hw)]; [left; reflexivity|].
      cbn [add]. apply ofInteger_nonneg. lia.
  - intros n. rewrite translate_max_length.
    destruct (search 2 shorterThanRe lq) as [m|] eqn:E5; [|discriminate].
    destruct (shorterThanRe_capture lq m E5) as (ds & v & -> & Hnum).
    cbn [parseIntOpt]. rewrite (parseInt_numeral ds v Hnum).
    intros [= <-].
    destruct (ofInteger_nonneg v (numeral_nonneg ds v Hnum))
      as [-> | (w & -> & Hw)]; [left; reflexivity|].
    cbn [sub]. destruct (Z.eq_dec w 0) as [-> | Hne].
    + right. exists (-1). split; [reflexivity|lia].
    + destruct (ofInteger_nonneg (w - 1) ltac:(lia))
        as [-> | (u & -> & Hu)]; [left; reflexivity|].
      right. exists u. split; [reflexivity|lia].
  - intros c. rewrite translate_contains_character.
    apply (vowelChoice_range
             (fun c => exists u, isLowerLetter u = true /\ c = [u])).
    + destruct (search 1 containsRe lq) as [m8|] eqn:E8.
      * destruct (search_containsRe_capture lq m8 E8) as (u & Hu & ->).
        intros x [= <-]. eauto.
      * destruct (search 2 letterRe lq) as [m7|] eqn:E7; [|discriminate].
        destruct (search_letterRe_capture lq m7 E7) as (u & Hu & ->).
        intros x [= <-]. eauto.
    + unfold vowels.
      repeat (apply Forall_cons_2;
              [eexists; (split; [|reflexivity]); reflexivity|]).
      apply Forall_nil_2.
Qed.

(** *** The list routes *)

(** [GET /strings] answers either 400 with an error, or 200 with the
    records of the store that the filters asked for keep, in insertion
    order, a [count] that is their number, and the filters applied; without
    any parameter it returns every record. *)
Theorem list_routes_data_and_count :
  (forall (query : ListQuery.t) (st : store),
      match content (listStrings query st) with
      | ListBody data count applied =>
          status (listStrings query st) = 200
          /\ data `sublist_of` getAllString st
          /\ count = Z.of_nat (length data)
          /\ applied = requestedFilters query
          /\ data = applyParsedFilters applied (getAllString st)
      | ErrorBody _ => status (listStrings query st) = 400
      | _ => False
      end)
  /\ (forall st : store,
         listStrings
           {| ListQuery.is_palindrome := None; ListQuery.min_length := None;
              ListQuery.max_length := None; ListQuery.word_count := None;
              ListQuery.contains_character := None |} st
         = {| status := 200;
              content := ListBody (getAllString st) (getCount st)
                                  Filters.empty |}).
Proof.
  split.
  - intros query st. destruct (validQuery query) eqn:E.
    + rewrite (listStrings_valid query st E). cbn [content status].
      rewrite <- applyParsedFilters_filter.
      split; [reflexivity|]. split; [|repeat split].
      rewrite applyParsedFilters_filter. apply filter_sublist.
    + pose proof (listStrings_invalid query st E) as H400.
      revert E H400. unfold validQuery, validNumber.
      unfold listStrings, stepPalindrome, stepMinLength, stepMaxLength,
        stepWordCount, stepContains.
      destruct query as [qp qmin qmax qwc qch]; simpl.
      destruct qp as [vp|]; simpl;
        (destruct qmin as [vmin|]; simpl;
         [destruct (isNaN (parseInt vmin)); simpl; [reflexivity|]|]);
        (destruct qmax as [vmax|]; simpl;
         [destruct (isNaN (parseInt vmax)); simpl; [reflexivity|]|]);
        (destruct qwc as [vwc|]; simpl;
         [destruct (isNaN (parseInt vwc)); simpl; [reflexivity|]|]);
        (destruct qch as [vch|]; simpl;
         [destruct (length vch =? 1)%nat; simpl; [|reflexivity]|]);
        discriminate.
  - intros st. unfold listStrings. cbn.
    unfold getCount, JsMap.size, getAllString, JsMap.values.
    rewrite length_fmap. reflexivity.
Qed.


End Program.

(** ** The program on examples

    The built-ins are instantiated by [toLowerCaseBasic], which agrees with
    [toLowerCase] on the ASCII text of the examples, and by [sampleDigest]. *)

Lemma C1_witness :
  Properties.is_palindrome
    (analyseString toLowerCaseBasic sampleDigest (lit "racecar")) = true
  /\ Properties.is_palindrome
       (analyseString toLowerCaseBasic sampleDigest (lit "race a car")) = false
  /\ Properties.is_palindrome
       (analyseString toLowerCaseBasic sampleDigest (lit "hello")) = false.
Proof.
  exact (C1_palindrome_examples toLowerCaseBasic sampleDigest
           (fun s _ => eq_refl)).
Defined.

(** The palindrome check on ["race a car"]: the normalised string is
    ["raceacar"], whose reversal is ["racaecar"]. *)
Lemma C1_race_a_car_is_not_palindrome :
  removeWhiteSpace (toLowerCaseBasic (lit "race a car")) = lit "raceacar"
  /\ rev (lit "raceacar") = lit "racaecar"
  /\ isPalindrome toLowerCaseBasic (lit "race a car") = false
  /\ Properties.is_palindrome
       (analyseString toLowerCaseBasic sampleDigest (lit "race a car")) = false.
Proof. repeat split; vm_compute; reflexivity. Qed.

Lemma C2_witness :
  exists c,
    isLowerLetter c = true
    /\ group [Some (lit "b")] 0 = Some [c]
    /\ (forall filters,
           Filters.contains_character
             (ruleContains
                (toLowerCaseBasic (lit "contains the letter a and contains b"))
                (ruleLetter
                   (toLowerCaseBasic
                      (lit "contains the letter a and contains b"))
                   filters))
           = Some [c])
    /\ Filters.contains_character
         (parseNaturalLanguageQuery toLowerCaseBasic
            (lit "contains the letter a and contains b"))
       = vowelChoice
           (toLowerCaseBasic (lit "contains the letter a and contains b"))
           (Some [c])
    /\ (Forall (fun word =>
                  includes
                    (toLowerCaseBasic
                       (lit "contains the letter a and contains b"))
                    (word ++ lit " vowel") = false)
               vowelWords ->
        Filters.contains_character
          (parseNaturalLanguageQuery toLowerCaseBasic
             (lit "contains the letter a and contains b"))
        = Some [c]).
Proof.
  apply (C2_rule8_overwrites_rule7 toLowerCaseBasic
           (lit "contains the letter a and contains b")
           [Some (lit "a"); None] [Some (lit "b")]);
    vm_compute; reflexivity.
Defined.

(** A query on which rules 7 and 8 both match, with different letters: the
    result holds the letter of rule 8, not the one of rule 7. *)
Lemma C2_rule7_letter_is_overwritten :
  search 2 letterRe
    (toLowerCaseBasic (lit "contains the letter a and contains b"))
  = Some [Some (lit "a"); None]
  /\ search 1 containsRe
       (toLowerCaseBasic (lit "contains the letter a and contains b"))
     = Some [Some (lit "b")]
  /\ Filters.contains_character
       (parseNaturalLanguageQuery toLowerCaseBasic
          (lit "contains the letter a and contains b"))
     = Some (lit "b").
Proof. repeat split; vm_compute; reflexivity. Qed.

Lemma C3_witness :
  JsMap.has (sampleDigest (lit "abc")) ([] : store) = false
  /\ getCount
       (snd (addString (lit "t1") (lit "abc")
               (analyseString toLowerCaseBasic sampleDigest (lit "abc")) []))
     = getCount [] + 1.
Proof.
  split; [reflexivity|].
  apply (C3_duplicate_add toLowerCaseBasic sampleDigest
           (lit "t1") (lit "t2") (lit "abc")
           (analyseString toLowerCaseBasic sampleDigest (lit "abc")) []).
  reflexivity.
Defined.

Lemma C4_witness :
  Forall (fun c => isWhiteSpace c = true) (lit "   ")
  /\ splitWs (trim (lit "   ")) = [[]]
  /\ Properties.word_count
       (analyseString toLowerCaseBasic sampleDigest (lit "   ")) = 1.
Proof.
  assert (Forall (fun c => isWhiteSpace c = true) (lit "   ")) as H
      by (repeat constructor).
  split; [exact H|].
  exact (proj1 (C4_word_count_boundary toLowerCaseBasic sampleDigest)
           (lit "   ") H).
Defined.

Lemma C5_witness :
  let record := fun value : jsstring => {|
    StringData.id := sampleDigest value;
    StringData.value := value;
    StringData.properties :=
      analyseString toLowerCaseBasic sampleDigest value;
    StringData.created_at := lit "2025-01-01T00:00:00.000Z" |} in
  applyParsedFilters
    (Filters.set_max_length (Some (Fin 9))
       (Filters.set_min_length (Some (Fin 5)) Filters.empty))
    [record (lit "abc"); record (lit "hello"); record (lit "racecar");
     record (lit "abcdefghij")]
  = [record (lit "hello"); record (lit "racecar")].
Proof.
  cbv zeta.
  apply (proj2 (proj2 (proj2 (proj2 C5_filters_and_semantics))));
    reflexivity.
Defined.

Lemma C6_witness :
  isNumeral (lit "10") 10
  /\ Filters.min_length
       (parseNaturalLanguageQuery toLowerCaseBasic
          (lit "strings longer than 10 characters"))
     = Some (add (ofInteger 10) (Fin 1))
  /\ (10 < 2 ^ 53 ->
      Filters.min_length
        (parseNaturalLanguageQuery toLowerCaseBasic
           (lit "strings longer than 10 characters"))
      = Some (Fin (10 + 1))).
Proof.
  assert (isNumeral (lit "10") 10) as Hnum.
  { split; [discriminate|]. split; [repeat constructor|reflexivity]. }
  split; [exact Hnum|].
  apply (proj1 (proj2 (C6_length_bounds_of_patterns toLowerCaseBasic
                         (fun s _ => eq_refl)))
           (lit "strings longer than 10 characters")
           (lit "strings ") (lit "10") (lit " characters") 10 Hnum).
  - intros c post' [= <- _]. reflexivity.
  - reflexivity.
  - intros i Hi.
    do 8 (destruct i as [|i]; [vm_compute; reflexivity|]).
    simpl in Hi. lia.
  - vm_compute. reflexivity.
Defined.

(** Where the pattern does not give [N + 1] or [N - 1].  Beyond [2^53] the
    arithmetic rounds: ["longer than 9007199254740992"] gives that same
    number as [min_length], and ["shorter than 9007199254740994"] gives
    9007199254740992 as [max_length].  Rule 6 overwrites rule 4: ["longer
    than 10 and at least 3 characters"] gives [min_length = 3].  Only the
    leftmost match of a rule counts: ["longer than 5 or longer than 10"]
    gives [min_length = 6] and ["shorter than 5 or shorter than 10"] gives
    [max_length = 4]. *)
Lemma C6_not_always_n_plus_one :
  (isNumeral (lit "9007199254740992") 9007199254740992
   /\ Filters.min_length
        (parseNaturalLanguageQuery toLowerCaseBasic
           (lit "strings longer than 9007199254740992 characters"))
      = Some (Fin 9007199254740992))
  /\ (isNumeral (lit "9007199254740994") 9007199254740994
      /\ Filters.max_length
           (parseNaturalLanguageQuery toLowerCaseBasic
              (lit "strings shorter than 9007199254740994 characters"))
         = Some (Fin 9007199254740992))
  /\ (includes (lit "longer than 10 and at least 3 characters")
               (lit "longer than 10") = true
      /\ Filters.min_length
           (parseNaturalLanguageQuery toLowerCaseBasic
              (lit "longer than 10 and at least 3 characters"))
         = Some (Fin 3))
  /\ (includes (lit "longer than 5 or longer than 10")
               (lit "longer than 10") = true
      /\ search 1 atLeastRe
           (toLowerCaseBasic (lit "longer than 5 or longer than 10")) = None
      /\ Filters.min_length
           (parseNaturalLanguageQuery toLowerCaseBasic
              (lit "longer than 5 or longer than 10"))
         = Some (Fin 6))
  /\ (includes (lit "shorter than 5 or shorter than 10")
               (lit "shorter than 10") = true
      /\ Filters.max_length
           (parseNaturalLanguageQuery toLowerCaseBasic
              (lit "shorter than 5 or shorter than 10"))
         = Some (Fin 4)).
Proof.
  repeat split; try discriminate; try (repeat constructor; fail);
    vm_compute; reflexivity.
Qed.

Lemma C7_witness :
  noRuleMatches (toLowerCaseBasic (lit "xyz"))
  /\ filterByNaturalLanguage toLowerCaseBasic (Some (lit "xyz")) []
     = {| status := 400;
          content :=
            UnparsedBody (lit "Unable to parse natural language query")
                         (lit "xyz") |}.
Proof.
  assert (noRuleMatches (toLowerCaseBasic (lit "xyz"))) as Hno.
  { repeat split; try (vm_compute; reflexivity).
    repeat constructor. }
  split; [exact Hno|].
  exact (proj1 (proj2 (C7_unparseable_versus_empty_result toLowerCaseBasic
                         (fun s _ => eq_refl)))
           120%N [121%N; 122%N] [] Hno).
Defined.

Lemma C8_witness :
  let st1 :=
    snd (addString (lit "t1") (lit "abc")
           (analyseString toLowerCaseBasic sampleDigest (lit "abc")) []) in
  let del1 := deleteStringByValue (lit "abc") st1 in
  let del2 := deleteStringByValue (lit "abc") (snd del1) in
  fst del1 = true
  /\ getStringByValue (lit "abc") (snd del1) = None
  /\ fst del2 = false
  /\ snd del2 = snd del1
  /\ snd del1 = [].
Proof.
  eapply (proj1 (C8_delete_by_value toLowerCaseBasic sampleDigest)
            (lit "t1") (lit "abc") []).
  - apply ReachEmpty.
  - reflexivity.
Defined.

Lemma C9_witness :
  removeWhiteSpace (toLowerCaseBasic (lit "   ")) = []
  /\ Properties.is_palindrome
       (analyseString toLowerCaseBasic sampleDigest (lit "   ")) = true.
Proof.
  apply (C9_whitespace_is_palindrome toLowerCaseBasic sampleDigest
           (fun s _ => eq_refl) (lit "   ")).
  - discriminate.
  - repeat constructor.
Defined.

Lemma lookup_returns_hashed_record_witness :
  let st1 :=
    snd (addString (lit "t1") (lit "abc")
           (analyseString toLowerCaseBasic sampleDigest (lit "abc")) []) in
  exists d,
    getStringByValue (lit "abc") st1 = Some d
    /\ StringData.id d = sampleDigest (lit "abc").
Proof.
  cbv zeta. eexists.
  eapply (proj2 (lookup_returns_hashed_record toLowerCaseBasic sampleDigest)
            (lit "t1") (lit "abc") []).
  - apply ReachEmpty.
  - reflexivity.
Defined.

Lemma specification_examples_witness :
  parseNaturalLanguageQuery toLowerCaseBasic
    (lit "all single word palindromic strings")
  = Filters.set_word_count (Some (Fin 1))
      (Filters.set_is_palindrome (Some true) Filters.empty)
  /\ parseNaturalLanguageQuery toLowerCaseBasic
       (lit "strings with the first vowel")
     = Filters.set_contains_character (Some (lit "a")) Filters.empty
  /\ Properties.unique_characters
       (analyseString toLowerCaseBasic sampleDigest (lit "aabb")) = 2
  /\ Properties.length
       (analyseString toLowerCaseBasic sampleDigest (lit "racecar")) = 7
  /\ Properties.is_palindrome
       (analyseString toLowerCaseBasic sampleDigest (lit "racecar")) = true
  /\ Properties.word_count
       (analyseString toLowerCaseBasic sampleDigest (lit "racecar")) = 1
  /\ Properties.unique_characters
       (analyseString toLowerCaseBasic sampleDigest (lit "racecar")) = 4.
Proof.
  exact (specification_examples toLowerCaseBasic sampleDigest
           (fun s _ => eq_refl)).
Defined.

Lemma split_recovers_words_witness :
  splitWs (trim (lit " " ++ joinWords (lit "hello")
                               [(lit "  ", lit "big"); (lit " ", lit "world")]
                 ++ lit "  "))
  = [lit "hello"; lit "big"; lit "world"]
  /\ Properties.word_count
       (analyseString toLowerCaseBasic sampleDigest
          (lit " " ++ joinWords (lit "hello")
                        [(lit "  ", lit "big"); (lit " ", lit "world")]
           ++ lit "  "))
     = 1 + Z.of_nat 2.
Proof.
  apply (split_recovers_words toLowerCaseBasic sampleDigest
           (lit " ") (lit "  ") (lit "hello")
           [(lit "  ", lit "big"); (lit " ", lit "world")]).
  - repeat constructor.
  - repeat constructor.
  - split; [discriminate|repeat constructor].
  - repeat constructor; discriminate.
Defined.

Lemma code_points_cover_string_witness :
  Forall (fun c => isLeadSurrogate c = false) (lit "aabb")
  /\ sumCounts
       (Properties.character_frequency
          (analyseString toLowerCaseBasic sampleDigest (lit "aabb")))
     = Properties.length
         (analyseString toLowerCaseBasic sampleDigest (lit "aabb")).
Proof.
  assert (Forall (fun c => isLeadSurrogate c = false) (lit "aabb")) as H
      by (repeat constructor).
  split; [exact H|].
  exact (proj2 (proj2 (proj2 (proj2
           (code_points_cover_string toLowerCaseBasic sampleDigest
              (lit "aabb"))))) H).
Defined.

Lemma palindrome_symmetries_witness :
  Forall (fun c => isBasic c = true) (lit "Never odd")
  /\ isPalindrome toLowerCaseBasic (lit "Never odd" ++ rev (lit "Never odd"))
     = true.
Proof.
  assert (Forall (fun c => isBasic c = true) (lit "Never odd")) as H
      by (repeat constructor).
  split; [exact H|].
  exact (proj1 (proj2 (palindrome_symmetries toLowerCaseBasic
                         (fun s _ => eq_refl)))
           (lit "Never odd") H).
Defined.

Lemma other_values_untouched_witness :
  let add := fun now value st =>
    snd (addString now value
           (analyseString toLowerCaseBasic sampleDigest value) st) in
  let st := add (lit "t2") (lit "a") (add (lit "t1") (lit "b") []) in
  lit "b" <> lit "a"
  /\ fst (deleteStringByValue (lit "a") st) = true
  /\ getStringByValue (lit "b") st
     = Some (recordOf toLowerCaseBasic sampleDigest (lit "t1") (lit "b"))
  /\ getStringByValue (lit "b") (snd (deleteStringByValue (lit "a") st))
     = getStringByValue (lit "b") st.
Proof.
  cbv zeta.
  assert (lit "b" <> lit "a") as H by discriminate.
  split; [exact H|]. split; [reflexivity|]. split; [reflexivity|].
  exact (proj2 (other_values_untouched toLowerCaseBasic sampleDigest)
           (lit "a") (lit "b") _
           (ReachAdd _ _ (lit "t2") (lit "a") _
              (ReachAdd _ _ (lit "t1") (lit "b") [] (ReachEmpty _ _)))
           H).
Defined.

Lemma reachable_store_well_formed_witness :
  let st :=
    snd (addString (lit "t1") (lit "abc")
           (analyseString toLowerCaseBasic sampleDigest (lit "abc")) []) in
  Reachable toLowerCaseBasic sampleDigest st
  /\ WellFormed toLowerCaseBasic sampleDigest st.
Proof.
  cbv zeta.
  assert (Reachable toLowerCaseBasic sampleDigest
            (snd (addString (lit "t1") (lit "abc")
                    (analyseString toLowerCaseBasic sampleDigest (lit "abc"))
                    []))) as H
      by (apply ReachAdd, ReachEmpty).
  split; [exact H|].
  exact (proj1 (reachable_store_well_formed toLowerCaseBasic sampleDigest
                  _ H)).
Defined.

Lemma filters_compose_witness :
  leb PosInf (Fin 3) = false
  /\ applyParsedFilters
       (Filters.set_max_length (Some (Fin 3))
          (Filters.set_min_length (Some PosInf) Filters.empty))
       [recordOf toLowerCaseBasic sampleDigest (lit "t1") (lit "ab");
        recordOf toLowerCaseBasic sampleDigest (lit "t2") (lit "abcd")]
     = [].
Proof.
  split; [reflexivity|].
  apply (proj1 (proj2 (proj2 (proj2 (proj2
           (filters_compose
              (Filters.set_max_length (Some (Fin 3))
                 (Filters.set_min_length (Some PosInf) Filters.empty))
              Filters.empty
              [recordOf toLowerCaseBasic sampleDigest (lit "t1") (lit "ab");
               recordOf toLowerCaseBasic sampleDigest (lit "t2")
                 (lit "abcd")]
              [])))))
           PosInf (Fin 3)); reflexivity.
Defined.

Lemma translator_output_ranges_witness :
  Filters.contains_character
    (parseNaturalLanguageQuery toLowerCaseBasic (lit "strings containing q"))
  = Some (lit "q")
  /\ exists u, isLowerLetter u = true /\ lit "q" = [u].
Proof.
  assert (Filters.contains_character
            (parseNaturalLanguageQuery toLowerCaseBasic
               (lit "strings containing q")) = Some (lit "q")) as H
      by (vm_compute; reflexivity).
  split; [exact H|].
  exact (proj2 (proj2 (proj2 (proj2
           (translator_output_ranges toLowerCaseBasic
              (lit "strings containing q")))))
           (lit "q") H).
Defined.
